(** * LuminanceHDR: the HDR creation manager

    A shallow embedding of [src/HdrWizard/HdrCreationManager.cpp]: the
    exposure store (loading, EV offset, geometry check), the patch based
    ghost detector ([computePatches]) and the gradient domain deghosting
    solver ([doAntiGhosting]).  Beside the manager: the channel container
    of [pfs::Frame] and the rectangle copy [copyArray] (both in
    [src/Libpfs/array2d.cpp]), the preview shift [shiftQImage], and the
    operator registry of [src/Libpfs/tm/TonemapOperator.cpp].

    Conventions.
    - [size_t] values, container sizes and loop counters are [nat];
      [int] values that may be negative (alignment offsets, the index
      returned by [findIndex], the [h0] argument) are [Z].
    - [float] is kept abstract behind the interface [FloatOps]: the manager
      only compares, subtracts, scales and converts floats, and every such
      operation is an operation of the interface, so rounding is whatever
      the instance says it is.  NaN is excluded: the order is total.
    - Indexing a [std::vector], a [QList] or a C array out of range is
      undefined behaviour; a function that would do so returns [None].
    - Qt signals and file writes are collected in an event log. *)

From Stdlib Require Import ZArith QArith Qcanon Qround.
From stdpp Require Import base numbers strings option orders sorting list.

Local Open Scope Z_scope.
Local Open Scope nat_scope.
Local Open Scope list_scope.

(** ** Floats *)

Class FloatOps (float : Type) := {
  f0 : float;                               (* 0.f *)
  f100 : float;                             (* 100.0f *)
  f_of_int : Z → float;                     (* static_cast<float>(int) *)
  fsub : float → float → float;
  fmul : float → float → float;
  fdiv : float → float → float;
  flog2 : float → float;                    (* log2 *)
  fpow2 : float → float;                    (* std::pow(2.f, x) *)
  fle : relation float;                     (* <= *)
  fle_dec :: RelDecision fle;
  fle_total_order :: TotalOrder fle
}.

(** [std::min(a, b)]: [b] when [b < a], else [a]. *)
Definition fmin `{FloatOps float} (a b : float) : float :=
  if decide (fle a b) then a else b.

(** ** Frames, items, events *)

Section Data.
Context {float Array2Df : Type}.

(** Modelled from the spec: [pfs::Frame] ([Libpfs/frame.h] is not among
    the sources), "one pixel frame (multi-channel float image)": its size
    and its X, Y, Z channels. *)
Record Frame := {
  getWidth : nat;
  getHeight : nat;
  chX : Array2Df;
  chY : Array2Df;
  chZ : Array2Df
}.

(** Modelled from the spec: [HdrCreationItem] ([HdrCreationItem.h] is
    not among the sources), "attributes: source identifier, exposure value
    (EV, may be unknown), average scene luminance, bit depth, validity
    flag".  The fields are the accessors the manager calls; [ItemData] is
    what the loading task fills in, [filename] is set at construction. *)
Record ItemData := {
  isValid : bool;
  hasEV : bool;
  getEV : float;
  hasAverageLuminance : bool;
  getAverageLuminance : float;
  getBitDepth : nat;
  frame : Frame
}.

Record HdrCreationItem := {
  filename : string;
  payload : ItemData
}.

(** [FrameEnhanced(frame, scale, bps)] handed to the fusion operator. *)
Record FrameEnhanced := {
  fe_frame : Frame;
  fe_scale : float;
  fe_bps : nat
}.
End Data.

Arguments Frame : clear implicits.
Arguments ItemData : clear implicits.
Arguments HdrCreationItem : clear implicits.
Arguments FrameEnhanced : clear implicits.

(** Signals emitted by the manager, and the one file it writes. *)
Inductive Event :=
| progressStarted
| progressFinished
| progressRangeChanged (lo hi : Z)
| progressValueChanged (v : Z)
| finishedLoadingFiles
| errorWhileLoading (message : string)
| loadFilesAborted
| alignTempFilesRemoved
| responseCurveWritten (file : string).

Global Instance Event_eq_dec : EqDecision Event.
Proof. solve_decision. Defined.

(** [bool m_patches[agGridSize][agGridSize]]: [m_patches[i][j]] is entry
    [j] of row [i]. *)
Abbreviation Grid := (list (list bool)).

Definition grid_get (g : Grid) (i j : nat) : bool :=
  default false (g !! i ≫= (.!! j)).

Definition grid_set (i j : nat) (v : bool) (g : Grid) : Grid :=
  alter (<[j := v]>) i g.

Definition grid_wf (n : nat) (g : Grid) : Prop :=
  length g = n ∧ Forall (λ row, length row = n) g.

(** [v[k]] for an [int] index. *)
Definition lookupZ {A} (l : list A) (k : Z) : option A :=
  if (k <? 0)%Z then None else l !! Z.to_nat k.

(** A loop body that may hit undefined behaviour. *)
Fixpoint foldl_opt {A B} (f : A → B → option A) (a : A) (l : list B) : option A :=
  match l with
  | [] => Some a
  | x :: l' => match f a x with
               | Some a' => foldl_opt f a' l'
               | None => None
               end
  end.

(** ** Collaborators whose code is outside the manager *)

(** [Array2D(cols, rows)] allocates with [_mm_malloc] and writes nothing:
    [Array2Df_alloc w h] stands for the indeterminate contents. *)
Class Array2DOps (float Array2Df : Type) := {
  Array2Df_alloc : nat → nat → Array2Df;
  array_min : Array2Df → float                (* min(const Array2Df&) *)
}.

(** [AutoAntighosting.h], [pde.h] and [WhiteBalance.h].  A function with an
    output parameter takes the old contents of that parameter first and
    returns the new contents. *)
Class AutoAntighosting (float Array2Df QImage : Type) := {
  agGridSize : nat;
  hueSquaredMean : list (HdrCreationItem float Array2Df) → list float → list float;
  findIndex : list float → nat → Z;
  sdv : HdrCreationItem float Array2Df → HdrCreationItem float Array2Df →
        float → Z → Z → float * float * float;
  comparePatches : HdrCreationItem float Array2Df → HdrCreationItem float Array2Df →
                   nat → nat → Z → Z → float → float → float → float →
                   float → Z → Z → bool;
  computeLogIrradiance : Array2Df → Array2Df → Array2Df;
  computeGradient : Array2Df → Array2Df → Array2Df → Array2Df * Array2Df;
  blendGradients_mask : Array2Df → Array2Df → Array2Df → Array2Df →
                        Array2Df → Array2Df → QImage → Array2Df * Array2Df;
  blendGradients_patches : Array2Df → Array2Df → Array2Df → Array2Df →
                           Array2Df → Array2Df → Grid → Z → Z → Array2Df * Array2Df;
  computeDivergence : Array2Df → Array2Df → Array2Df → Array2Df;
  solve_pde_dct : Array2Df → Array2Df → Array2Df;
  computeIrradiance : Array2Df → Array2Df → Array2Df;
  clampToZero : Array2Df → Array2Df → Array2Df → float → Array2Df * Array2Df * Array2Df;
  shadesOfGrayAWB : Array2Df → Array2Df → Array2Df → Array2Df * Array2Df * Array2Df
}.

(** [libhdr::fusion]: the response curve, the weight function and the
    fusion operator.  [computeFusion] receives the response curve by
    reference, so it returns it as well. *)
Class Fusion (float Array2Df ResponseCurve WeightFunction FusionOperator : Type) := {
  response_setBPS : nat → ResponseCurve → ResponseCurve;
  weight_setBPS : nat → WeightFunction → WeightFunction;
  response_readFromFile : string → ResponseCurve → ResponseCurve * option string;
  computeFusion : FusionOperator → ResponseCurve → WeightFunction →
                  list (FrameEnhanced float Array2Df) → Frame Array2Df * ResponseCurve
}.

(** ** The manager *)

Section Manager.
Context {float Array2Df QImage ResponseCurve WeightFunction FusionOperator : Type}.
Context `{!FloatOps float} `{!Array2DOps float Array2Df}.
Context `{!AutoAntighosting float Array2Df QImage}.
Context `{!Fusion float Array2Df ResponseCurve WeightFunction FusionOperator}.

Abbreviation Item := (HdrCreationItem float Array2Df).

Record HdrCreationManager := {
  m_data : list Item;
  m_tmpdata : list Item;
  m_evOffset : float;
  m_response : ResponseCurve;
  m_weight : WeightFunction;
  m_fusionOperator : FusionOperator;
  m_responseCurveInputFilename : string;
  m_responseCurveOutputFilename : string;
  m_isLoadResponseCurve : bool;
  m_agMask : option QImage;
  m_align : bool;                           (* m_align != NULL *)
  m_futureWatcher_isRunning : bool;
  m_agGoodImageIndex : Z;
  m_patches : Grid
}.

Definition set_data (d : list Item) (s : HdrCreationManager) :=
  {| m_data := d; m_tmpdata := m_tmpdata s; m_evOffset := m_evOffset s;
     m_response := m_response s; m_weight := m_weight s;
     m_fusionOperator := m_fusionOperator s;
     m_responseCurveInputFilename := m_responseCurveInputFilename s;
     m_responseCurveOutputFilename := m_responseCurveOutputFilename s;
     m_isLoadResponseCurve := m_isLoadResponseCurve s; m_agMask := m_agMask s;
     m_align := m_align s;
     m_futureWatcher_isRunning := m_futureWatcher_isRunning s;
     m_agGoodImageIndex := m_agGoodImageIndex s; m_patches := m_patches s |}.

Definition set_tmpdata (d : list Item) (s : HdrCreationManager) :=
  {| m_data := m_data s; m_tmpdata := d; m_evOffset := m_evOffset s;
     m_response := m_response s; m_weight := m_weight s;
     m_fusionOperator := m_fusionOperator s;
     m_responseCurveInputFilename := m_responseCurveInputFilename s;
     m_responseCurveOutputFilename := m_responseCurveOutputFilename s;
     m_isLoadResponseCurve := m_isLoadResponseCurve s; m_agMask := m_agMask s;
     m_align := m_align s;
     m_futureWatcher_isRunning := m_futureWatcher_isRunning s;
     m_agGoodImageIndex := m_agGoodImageIndex s; m_patches := m_patches s |}.

Definition set_evOffset (e : float) (s : HdrCreationManager) :=
  {| m_data := m_data s; m_tmpdata := m_tmpdata s; m_evOffset := e;
     m_response := m_response s; m_weight := m_weight s;
     m_fusionOperator := m_fusionOperator s;
     m_responseCurveInputFilename := m_responseCurveInputFilename s;
     m_responseCurveOutputFilename := m_responseCurveOutputFilename s;
     m_isLoadResponseCurve := m_isLoadResponseCurve s; m_agMask := m_agMask s;
     m_align := m_align s;
     m_futureWatcher_isRunning := m_futureWatcher_isRunning s;
     m_agGoodImageIndex := m_agGoodImageIndex s; m_patches := m_patches s |}.

Definition set_curves (r : ResponseCurve) (w : WeightFunction) (l : bool)
    (s : HdrCreationManager) :=
  {| m_data := m_data s; m_tmpdata := m_tmpdata s; m_evOffset := m_evOffset s;
     m_response := r; m_weight := w;
     m_fusionOperator := m_fusionOperator s;
     m_responseCurveInputFilename := m_responseCurveInputFilename s;
     m_responseCurveOutputFilename := m_responseCurveOutputFilename s;
     m_isLoadResponseCurve := l; m_agMask := m_agMask s;
     m_align := m_align s;
     m_futureWatcher_isRunning := m_futureWatcher_isRunning s;
     m_agGoodImageIndex := m_agGoodImageIndex s; m_patches := m_patches s |}.

Definition set_futureWatcher_isRunning (b : bool) (s : HdrCreationManager) :=
  {| m_data := m_data s; m_tmpdata := m_tmpdata s; m_evOffset := m_evOffset s;
     m_response := m_response s; m_weight := m_weight s;
     m_fusionOperator := m_fusionOperator s;
     m_responseCurveInputFilename := m_responseCurveInputFilename s;
     m_responseCurveOutputFilename := m_responseCurveOutputFilename s;
     m_isLoadResponseCurve := m_isLoadResponseCurve s; m_agMask := m_agMask s;
     m_align := m_align s;
     m_futureWatcher_isRunning := b;
     m_agGoodImageIndex := m_agGoodImageIndex s; m_patches := m_patches s |}.

Definition set_ag (h0 : Z) (g : Grid) (s : HdrCreationManager) :=
  {| m_data := m_data s; m_tmpdata := m_tmpdata s; m_evOffset := m_evOffset s;
     m_response := m_response s; m_weight := m_weight s;
     m_fusionOperator := m_fusionOperator s;
     m_responseCurveInputFilename := m_responseCurveInputFilename s;
     m_responseCurveOutputFilename := m_responseCurveOutputFilename s;
     m_isLoadResponseCurve := m_isLoadResponseCurve s; m_agMask := m_agMask s;
     m_align := m_align s;
     m_futureWatcher_isRunning := m_futureWatcher_isRunning s;
     m_agGoodImageIndex := h0; m_patches := g |}.

Definition availableInputFiles (s : HdrCreationManager) : nat := length (m_data s).

(** *** Loading *)

Definition checkFileName (item : Item) (str : string) : bool :=
  String.eqb (filename item) str.

(** Modelled from the spec: the constructor [HdrCreationItem(filename)],
    an item "created on load request" with nothing loaded yet; [blank] is
    what the constructor leaves in the other members. *)
Definition newItem (blank : ItemData float Array2Df) (name : string) : Item :=
  {| filename := name; payload := blank |}.

(** [loadFiles]: a name is scheduled unless [find_if] meets it in
    [m_data]; then the future is started. *)
Definition loadFiles (blank : ItemData float Array2Df) (filenames : list string)
    (s : HdrCreationManager) : HdrCreationManager :=
  set_futureWatcher_isRunning true
    (foldl (λ s name,
              match find (λ item, checkFileName item name) (m_data s) with
              | None => set_tmpdata (m_tmpdata s ++ [newItem blank name]) s
              | Some _ => s
              end) s filenames).

(** Modelled from the spec: [LoadFile()] (not among the sources), the
    loading task by which an item is "populated asynchronously": the format
    I/O collaborator "decodes a file path [...] into a pixel frame plus
    EV/luminance metadata".  [decode] is that collaborator; the file name
    stays. *)
Definition LoadFile (decode : string → ItemData float Array2Df) (item : Item) : Item :=
  {| filename := filename item; payload := decode (filename item) |}.

(** [QtConcurrent::map(m_tmpdata.begin(), m_tmpdata.end(), LoadFile())]:
    every pending item is loaded in place; [decode k] is the decoder as it
    answers for the item in slot [k]. *)
Definition mapLoadFile (decode : nat → string → ItemData float Array2Df)
    (s : HdrCreationManager) : HdrCreationManager :=
  set_futureWatcher_isRunning false
    (set_tmpdata (imap (λ k, LoadFile (decode k)) (m_tmpdata s)) s).

(** [refreshEVOffset]; [std::sort] is [merge_sort] on [fle]. *)
Definition refreshEVOffset (s : HdrCreationManager) : HdrCreationManager :=
  match m_data s with
  | [] => set_evOffset f0 s
  | _ =>
    let evs := (getEV ∘ payload) <$> filter (λ it, hasEV (payload it) = true) (m_data s) in
    match evs with
    | [] => set_evOffset f0 s
    | [e] => set_evOffset e s
    | _ => set_evOffset (nth ((length evs + 1) / 2 - 1) (merge_sort fle evs) f0) s
    end
  end.

Definition getEVOffset (s : HdrCreationManager) : float := m_evOffset s.

Definition removeFile (idx : Z) (s : HdrCreationManager) : option HdrCreationManager :=
  if bool_decide (0 ≤ idx < Z.of_nat (length (m_data s)))%Z
  then Some (refreshEVOffset (set_data (delete (Z.to_nat idx) (m_data s)) s))
  else None.

Definition clearFiles (s : HdrCreationManager) : HdrCreationManager :=
  set_tmpdata [] (set_data [] s).

Definition sameSize (w h : nat) (it : Item) : bool :=
  negb (negb (Nat.eqb (getWidth (frame (payload it))) w)
        || negb (Nat.eqb (getHeight (frame (payload it))) h)).

(** [framesHaveSameSize] reads [m_data[0]] first. *)
Definition framesHaveSameSize (s : HdrCreationManager) : option bool :=
  match m_data s with
  | [] => None
  | it0 :: rest =>
    let width := getWidth (frame (payload it0)) in
    let height := getHeight (frame (payload it0)) in
    Some (forallb (sameSize width height) rest)
  end.

Definition msgLoadError : string :=
  "HdrCreationManager::loadFilesDone(): Error loading a file."%string.
Definition msgDifferentSize : string :=
  "HdrCreationManager::loadFilesDone(): The images have different size."%string.

(** The response curve block of [loadFilesDone]. *)
Definition loadResponseCurve (s : HdrCreationManager)
    : option (HdrCreationManager * list Event) :=
  if m_isLoadResponseCurve s then
    it0 ← m_tmpdata s !! 0;
    let bps := getBitDepth (payload it0) in
    let r := response_setBPS bps (m_response s) in
    let w := weight_setBPS bps (m_weight s) in
    match response_readFromFile (m_responseCurveInputFilename s) r with
    | (r', None) => Some (set_curves r' w false s, [])
    | (r', Some what) => Some (set_curves r' w true s, [errorWhileLoading what])
    end
  else Some (s, []).

(** [loadFilesDone]; [isCanceled] is [m_futureWatcher.isCanceled()]. *)
Definition loadFilesDone (isCanceled : bool) (s : HdrCreationManager)
    : option (HdrCreationManager * list Event) :=
  if isCanceled then
    Some (set_tmpdata [] s, [errorWhileLoading msgLoadError])
  else
    '(s1, log1) ← loadResponseCurve s;
    let s2 := set_data (m_data s1 ++ filter (λ it, isValid (payload it) = true) (m_tmpdata s1)) s1 in
    let s3 := set_tmpdata [] s2 in
    let s4 := refreshEVOffset s3 in
    same ← framesHaveSameSize s4;
    if negb same then
      Some (set_data [] s4, log1 ++ [errorWhileLoading msgDifferentSize])
    else
      Some (s4, log1 ++ [finishedLoadingFiles]).

(** One load batch from request to completion. *)
Definition loadBatch (blank : ItemData float Array2Df)
    (decode : nat → string → ItemData float Array2Df) (isCanceled : bool)
    (filenames : list string) (s : HdrCreationManager)
    : option (HdrCreationManager * list Event) :=
  loadFilesDone isCanceled (mapLoadFile decode (loadFiles blank filenames s)).

(** [reset] *)
Definition reset (s : HdrCreationManager) : HdrCreationManager * list Event :=
  let log1 := if m_align s then [alignTempFilesRemoved] else [] in
  let log2 := if m_futureWatcher_isRunning s then [loadFilesAborted] else [] in
  (set_tmpdata [] (set_data [] (set_futureWatcher_isRunning false s)), log1 ++ log2).

(** [createHdr]: every frame with its scale [2^(EV - offset)], fused by
    the configured operator; the response curve is written out when an
    output file name is set. *)
Definition createHdr (s : HdrCreationManager)
    : option (HdrCreationManager * list Event * Frame Array2Df) :=
  it0 ← m_data s !! 0;
  let bps := getBitDepth (payload it0) in
  let frames :=
    (λ it : Item, {| fe_frame := frame (payload it);
                     fe_scale := fpow2 (fsub (getEV (payload it)) (m_evOffset s));
                     fe_bps := bps |}) <$> m_data s in
  let '(outputFrame, r) :=
    computeFusion (m_fusionOperator s) (m_response s) (m_weight s) frames in
  let log := if String.eqb (m_responseCurveOutputFilename s) EmptyString
             then [] else [responseCurveWritten (m_responseCurveOutputFilename s)] in
  Some (set_curves r (m_weight s) (m_isLoadResponseCurve s) s, log, outputFrame).

(** *** Ghost detection *)

(** The two loops that set every [m_patches[i][j]] to [false]. *)
Definition clearPatches (g : Grid) : Grid :=
  foldl (λ g j, foldl (λ g i, grid_set i j false g) g (seq 0 agGridSize))
        g (seq 0 agGridSize).

(** The comparison of the reference [good] with one candidate [cand]:
    the two loops over the grid that set a cell when [comparePatches]
    says so, and never clear one. *)
Definition markPatches (good cand : Item) (gridX gridY : Z) (threshold : float)
    (sR sG sB deltaEV : float) (dx dy : Z) (g : Grid) : Grid :=
  foldl (λ g j,
           foldl (λ g i,
                    if comparePatches good cand i j gridX gridY threshold
                                      sR sG sB deltaEV dx dy
                    then grid_set i j true g else g)
                 g (seq 0 agGridSize))
        g (seq 0 agGridSize).

(** One turn of the loop over the images [h]. *)
Definition patchesLoopBody (data : list Item) (HV_offset : list (Z * Z))
    (gridX gridY : Z) (threshold : float) (goodIndex : Z)
    (g : Grid) (h : nat) : option Grid :=
  if (Z.of_nat h =? goodIndex)%Z then Some g
  else
    good ← lookupZ data goodIndex;
    cand ← data !! h;
    let deltaEV := fsub (flog2 (getAverageLuminance (payload good)))
                        (flog2 (getAverageLuminance (payload cand))) in
    offGood ← lookupZ HV_offset goodIndex;
    offH ← HV_offset !! h;
    let dx := (offGood.1 - offH.1)%Z in
    let dy := (offGood.2 - offH.2)%Z in
    let '(sR, sG, sB) := sdv good cand deltaEV dx dy in
    Some (markPatches good cand gridX gridY threshold sR sG sB deltaEV dx dy g).

(** The counting loops. *)
Definition countPatches (g : Grid) : nat :=
  foldl (λ count i,
           foldl (λ count j, if grid_get g i j then S count else count)
                 count (seq 0 agGridSize))
        0 (seq 0 agGridSize).

Definition percentOf (count : nat) : float :=
  fmul (fdiv (f_of_int (Z.of_nat count))
             (f_of_int (Z.of_nat agGridSize * Z.of_nat agGridSize)))
       f100.

(** What [computePatches] hands back: the return value, the [patches]
    array and [percent]. *)
Record PatchesResult := {
  pr_index : Z;
  pr_patches : Grid;
  pr_percent : float
}.

(** [computePatches]; [assert(size >= 2)] stops the run. *)
Definition computePatches (threshold : float) (HV_offset : list (Z * Z))
    (s : HdrCreationManager) : option (HdrCreationManager * PatchesResult) :=
  it0 ← m_data s !! 0;
  let width := Z.of_nat (getWidth (frame (payload it0))) in
  let height := Z.of_nat (getHeight (frame (payload it0))) in
  let gridX := (width ÷ Z.of_nat agGridSize)%Z in
  let gridY := (height ÷ Z.of_nat agGridSize)%Z in
  let size := length (m_data s) in
  if size <? 2 then None
  else
    let HE := hueSquaredMean (m_data s) (replicate size f0) in
    let goodIndex := findIndex HE size in
    let cleared := clearPatches (m_patches s) in
    patches ← foldl_opt (patchesLoopBody (m_data s) HV_offset gridX gridY
                                          threshold goodIndex)
                         cleared (seq 0 size);
    let count := countPatches patches in
    let percent := percentOf count in
    Some (set_ag goodIndex patches s,
          {| pr_index := goodIndex; pr_patches := patches; pr_percent := percent |}).

(** *** Deghosting *)

(** The per channel locals of [doAntiGhosting] that later steps read. *)
Record ChannelStage := {
  logIrradiance : Array2Df;
  logIrradianceGood : Array2Df;
  gradientGood : Array2Df * Array2Df;
  gradient : Array2Df * Array2Df;
  gradientBlended : Array2Df * Array2Df;
  divergence : Array2Df
}.

Definition BlendFn : Type :=
  Array2Df → Array2Df → Array2Df → Array2Df → Array2Df → Array2Df → Array2Df * Array2Df.

(** The block between [//RED] and [//END RED]. *)
Definition stageRed (width height : nat) (blend : BlendFn) (Rc Good_Rc : Array2Df)
    : ChannelStage :=
  let logIrradiance_R := computeLogIrradiance (Array2Df_alloc width height) Rc in
  let gradientXGood_R := Array2Df_alloc width height in
  let gradientYGood_R := Array2Df_alloc width height in
  let logIrradianceGood_R := Array2Df_alloc width height in
  let logIrradianceGood_R := computeLogIrradiance logIrradianceGood_R Good_Rc in
  let gradGood := computeGradient gradientXGood_R gradientYGood_R logIrradianceGood_R in
  let grad := computeGradient (Array2Df_alloc width height) (Array2Df_alloc width height)
                              logIrradiance_R in
  let blended := blend (Array2Df_alloc width height) (Array2Df_alloc width height)
                       grad.1 grad.2 gradGood.1 gradGood.2 in
  let divergence_R := computeDivergence (Array2Df_alloc width height) blended.1 blended.2 in
  {| logIrradiance := logIrradiance_R; logIrradianceGood := logIrradianceGood_R;
     gradientGood := gradGood; gradient := grad;
     gradientBlended := blended; divergence := divergence_R |}.

(** The block between [//GREEN] and [//END GREEN]: [computeGradient] is
    called on [logIrradianceGood_G] before [computeLogIrradiance] has
    written it. *)
Definition stageGreen (width height : nat) (blend : BlendFn) (Gc Good_Gc : Array2Df)
    : ChannelStage :=
  let logIrradiance_G := computeLogIrradiance (Array2Df_alloc width height) Gc in
  let gradientXGood_G := Array2Df_alloc width height in
  let gradientYGood_G := Array2Df_alloc width height in
  let logIrradianceGood_G := Array2Df_alloc width height in
  let gradGood := computeGradient gradientXGood_G gradientYGood_G logIrradianceGood_G in
  let logIrradianceGood_G := computeLogIrradiance logIrradianceGood_G Good_Gc in
  let grad := computeGradient (Array2Df_alloc width height) (Array2Df_alloc width height)
                              logIrradiance_G in
  let blended := blend (Array2Df_alloc width height) (Array2Df_alloc width height)
                       grad.1 grad.2 gradGood.1 gradGood.2 in
  let divergence_G := computeDivergence (Array2Df_alloc width height) blended.1 blended.2 in
  {| logIrradiance := logIrradiance_G; logIrradianceGood := logIrradianceGood_G;
     gradientGood := gradGood; gradient := grad;
     gradientBlended := blended; divergence := divergence_G |}.

(** The block between [//BLUE] and [//END BLUE]. *)
Definition stageBlue (width height : nat) (blend : BlendFn) (Bc Good_Bc : Array2Df)
    : ChannelStage :=
  let logIrradiance_B := computeLogIrradiance (Array2Df_alloc width height) Bc in
  let gradientXGood_B := Array2Df_alloc width height in
  let gradientYGood_B := Array2Df_alloc width height in
  let logIrradianceGood_B := Array2Df_alloc width height in
  let logIrradianceGood_B := computeLogIrradiance logIrradianceGood_B Good_Bc in
  let gradGood := computeGradient gradientXGood_B gradientYGood_B logIrradianceGood_B in
  let grad := computeGradient (Array2Df_alloc width height) (Array2Df_alloc width height)
                              logIrradiance_B in
  let blended := blend (Array2Df_alloc width height) (Array2Df_alloc width height)
                       grad.1 grad.2 gradGood.1 gradGood.2 in
  let divergence_B := computeDivergence (Array2Df_alloc width height) blended.1 blended.2 in
  {| logIrradiance := logIrradiance_B; logIrradianceGood := logIrradianceGood_B;
     gradientGood := gradGood; gradient := grad;
     gradientBlended := blended; divergence := divergence_B |}.

(** The three stages as [doAntiGhosting] feeds them: the reference
    channels are copies of X, Y and Z of [m_data[h0]]; [Rc], [Gc] and [Bc]
    are all three constructed from [*Xc] of the fused frame. *)
Definition channelStages (width height : nat) (blend : BlendFn)
    (ghosted good : Frame Array2Df) : ChannelStage * ChannelStage * ChannelStage :=
  let Good_Rc := chX good in
  let Good_Gc := chY good in
  let Good_Bc := chZ good in
  let Rc := chX ghosted in
  let Gc := chX ghosted in
  let Bc := chX ghosted in
  (stageRed width height blend Rc Good_Rc,
   stageGreen width height blend Gc Good_Gc,
   stageBlue width height blend Bc Good_Bc).

(** The blend that [manualAg] selects; [*m_agMask] needs a mask. *)
Definition selectBlend (manualAg : bool) (patches : Grid) (gridX gridY : Z)
    (s : HdrCreationManager) : option BlendFn :=
  if manualAg then
    mask ← m_agMask s;
    Some (λ ox oy gx gy ggx ggy, blendGradients_mask ox oy gx gy ggx ggy mask)
  else
    Some (λ ox oy gx gy ggx ggy,
            blendGradients_patches ox oy gx gy ggx ggy patches gridX gridY).

(** [doAntiGhosting].  [canceled k] is the answer of [ph->canceled()] at
    the [k]-th time it is asked; the result is the new manager, the events
    and the returned frame pointer ([None] for [NULL]). *)
Definition doAntiGhosting (patches : Grid) (h0 : Z) (manualAg : bool)
    (canceled : nat → bool) (s : HdrCreationManager)
    : option (HdrCreationManager * list Event * option (Frame Array2Df)) :=
  it0 ← m_data s !! 0;
  let width := getWidth (frame (payload it0)) in
  let height := getHeight (frame (payload it0)) in
  let gridX := (Z.of_nat width ÷ Z.of_nat agGridSize)%Z in
  let gridY := (Z.of_nat height ÷ Z.of_nat agGridSize)%Z in
  let log0 := [progressRangeChanged 0 100; progressValueChanged 0; progressStarted] in
  good ← lookupZ (m_data s) h0;
  '(s1, logHdr, ghosted) ← createHdr s;
  let log1 := log0 ++ logHdr ++ [progressValueChanged 20] in
  if canceled 0 then Some (s1, log1, None)
  else
    let '(s2, logReset) := reset s1 in
    blend ← selectBlend manualAg patches gridX gridY s2;
    let '(R, G, B) := channelStages width height blend ghosted (frame (payload good)) in
    let logIrradiance_R := solve_pde_dct (divergence R) (logIrradiance R) in
    let log2 := log1 ++ logReset ++ [progressValueChanged 60] in
    if canceled 1 then Some (s2, log2, None)
    else
      let logIrradiance_G := solve_pde_dct (divergence G) (logIrradiance G) in
      let log3 := log2 ++ [progressValueChanged 76] in
      if canceled 2 then Some (s2, log3, None)
      else
        let logIrradiance_B := solve_pde_dct (divergence B) (logIrradiance B) in
        let log4 := log3 ++ [progressValueChanged 93] in
        if canceled 3 then Some (s2, log4, None)
        else
          let Urc := computeIrradiance (Array2Df_alloc width height) logIrradiance_R in
          let log5 := log4 ++ [progressValueChanged 94] in
          if canceled 4 then Some (s2, log5, None)
          else
            let Ugc := computeIrradiance (Array2Df_alloc width height) logIrradiance_G in
            let log6 := log5 ++ [progressValueChanged 95] in
            if canceled 5 then Some (s2, log6, None)
            else
              let Ubc := computeIrradiance (Array2Df_alloc width height) logIrradiance_B in
              let log7 := log6 ++ [progressValueChanged 96] in
              if canceled 6 then Some (s2, log7, None)
              else
                let mr := array_min Urc in
                let mg := array_min Ugc in
                let mb := array_min Ubc in
                let t := fmin mr mg in
                let m := fmin t mb in
                let '(Urc, Ugc, Ubc) := clampToZero Urc Ugc Ubc m in
                let '(Urc, Ugc, Ubc) := shadesOfGrayAWB Urc Ugc Ubc in
                Some (s2, log7 ++ [progressValueChanged 100; progressFinished],
                      Some {| getWidth := width; getHeight := height;
                              chX := Urc; chY := Ugc; chZ := Ubc |}).

(** *** Notions the statements below use *)

Definition namesOf (l : list Item) : list string := filename <$> l.

(** The EVs of the items that have one, in store order. *)
Definition knownEVs (s : HdrCreationManager) : list float :=
  (getEV ∘ payload) <$> filter (λ it, hasEV (payload it) = true) (m_data s).

(** The median convention in words: of an ascending list of [n] values,
    the one at index ceil(n/2) - 1, and zero when there is none. *)
Definition ceil_half (n : nat) : nat := Z.to_nat (Qceiling (Z.of_nat n # 2)).

Definition medianOf (sorted : list float) : float :=
  match sorted with
  | [] => f0
  | _ => nth (ceil_half (length sorted) - 1) sorted f0
  end.

(** The items a settled batch puts in front of the geometry check. *)
Definition merged (s : HdrCreationManager) : list Item :=
  m_data s ++ filter (λ it, isValid (payload it) = true) (m_tmpdata s).

(** The cells of the patch grid. *)
Definition cells : list (nat * nat) :=
  list_prod (seq 0 agGridSize) (seq 0 agGridSize).

(** The number of flagged cells of a grid. *)
Definition flaggedCells (g : Grid) : nat :=
  length (filter (λ c, grid_get g c.1 c.2 = true) cells).

(** Whether the comparison of the reference with image [h] flags cell
    [(i, j)]; the reference flags nothing. *)
Definition flaggedBy (data : list Item) (HV_offset : list (Z * Z))
    (gridX gridY : Z) (threshold : float) (goodIndex : Z) (h i j : nat) : bool :=
  if (Z.of_nat h =? goodIndex)%Z then false
  else
    match lookupZ data goodIndex, data !! h,
          lookupZ HV_offset goodIndex, HV_offset !! h with
    | Some good, Some cand, Some offGood, Some offH =>
      let deltaEV := fsub (flog2 (getAverageLuminance (payload good)))
                          (flog2 (getAverageLuminance (payload cand))) in
      let dx := (offGood.1 - offH.1)%Z in
      let dy := (offGood.2 - offH.2)%Z in
      let '(sR, sG, sB) := sdv good cand deltaEV dx dy in
      comparePatches good cand i j gridX gridY threshold sR sG sB deltaEV dx dy
    | _, _, _, _ => false
    end.

End Manager.

(** ** The manager: queries, patch data and shifts *)

Section ManagerQueries.
Context {float Array2Df QImage ResponseCurve WeightFunction FusionOperator : Type}.
Context `{!FloatOps float} `{!Array2DOps float Array2Df}.
Context `{!AutoAntighosting float Array2Df QImage}.
Context `{!Fusion float Array2Df ResponseCurve WeightFunction FusionOperator}.

Abbreviation Item := (HdrCreationItem float Array2Df).
Abbreviation Manager :=
  (@HdrCreationManager float Array2Df QImage ResponseCurve WeightFunction FusionOperator).

(** [getFilesWithoutExif]: the [foreach] with [push_back]. *)
Definition getFilesWithoutExif (s : Manager) : list string :=
  foldl (λ invalidFiles (fileData : Item),
           if negb (hasAverageLuminance (payload fileData))
           then invalidFiles ++ [filename fileData] else invalidFiles)
        [] (m_data s).

(** [numFilesWithoutExif]: the [foreach] with [++counter]. *)
Definition numFilesWithoutExif (s : Manager) : nat :=
  foldl (λ counter (fileData : Item),
           if negb (hasAverageLuminance (payload fileData))
           then S counter else counter)
        0 (m_data s).

(** [getAgData]: the [patches] array and [h0] it fills in. *)
Definition getAgData (s : Manager) : Grid * Z := (m_patches s, m_agGoodImageIndex s).

(** [setPatches] *)
Definition setPatches (patches : Grid) (s : Manager) : Manager :=
  set_ag (m_agGoodImageIndex s) patches s.

(** [applyShiftsToItems]; [shiftItem] is the helper of that name, which
    replaces the frame of an item and its preview by shifted copies.
    [hvOffsets[i]] and [m_data[i]] must exist. *)
Definition applyShiftsToItems (shiftItem : Item → Z → Z → Item)
    (hvOffsets : list (Z * Z)) (s : Manager) : option Manager :=
  let size := length (m_data s) in
  data ← foldl_opt (λ data i,
                      off ← hvOffsets !! i;
                      if (off.1 =? off.2)%Z && (off.1 =? 0)%Z then Some data
                      else
                        it ← data !! i;
                        Some (<[i := shiftItem it off.1 off.2]> data))
                   (m_data s) (seq 0 size);
  Some (set_data data s).

End ManagerQueries.

(** The values of [progressValueChanged] in a log, in the order of
    emission. *)
Definition progressValues (log : list Event) : list Z :=
  omap (λ e, match e with progressValueChanged v => Some v | _ => None end) log.

(** ** The manager: construction and the states it can reach *)

Section ManagerStates.
Context {float Array2Df QImage ResponseCurve WeightFunction FusionOperator : Type}.
Context `{!FloatOps float} `{!Array2DOps float Array2Df}.
Context `{!AutoAntighosting float Array2Df QImage}.
Context `{!Fusion float Array2Df ResponseCurve WeightFunction FusionOperator}.

Abbreviation Item := (HdrCreationItem float Array2Df).
Abbreviation Manager :=
  (@HdrCreationManager float Array2Df QImage ResponseCurve WeightFunction FusionOperator).

(** The constructor.  [response], [weight] and [fusionOperator] are what
    [predef_confs[0]] asks for.  [m_patches] and [m_agGoodImageIndex]
    start with whatever the memory holds, [patches0] and
    [agGoodImageIndex0]: the two loops clear the former, and nothing
    initialises the latter. *)
Definition HdrCreationManager_new (response : ResponseCurve) (weight : WeightFunction)
    (fusionOperator : FusionOperator) (patches0 : Grid) (agGoodImageIndex0 : Z)
    : Manager :=
  {| m_data := []; m_tmpdata := []; m_evOffset := f0;
     m_response := response; m_weight := weight; m_fusionOperator := fusionOperator;
     m_responseCurveInputFilename := EmptyString;
     m_responseCurveOutputFilename := EmptyString;
     m_isLoadResponseCurve := false; m_agMask := None; m_align := false;
     m_futureWatcher_isRunning := false;
     m_agGoodImageIndex := agGoodImageIndex0;
     m_patches :=
       foldl (λ g i, foldl (λ g j, grid_set i j false g) g (seq 0 agGridSize))
             patches0 (seq 0 agGridSize) |}.

(** What the statement about all states says of the store: the stored
    items are valid and of one size. *)
Definition storeOK (l : list Item) : Prop :=
  (∀ it : Item, it ∈ l → isValid (payload it) = true)
  ∧ ∀ a c : Item, a ∈ l → c ∈ l →
      getWidth (frame (payload a)) = getWidth (frame (payload c))
      ∧ getHeight (frame (payload a)) = getHeight (frame (payload c)).

(** The states a manager gets into from its construction by the
    operations above, in any order.  An array handed to [setPatches] is a
    [bool [agGridSize][agGridSize]], as is the one in the memory of a new
    manager. *)
Inductive reachable : Manager → Prop :=
| reach_new response weight fusionOperator patches0 agGoodImageIndex0 :
    grid_wf agGridSize patches0 →
    reachable (HdrCreationManager_new response weight fusionOperator
                                      patches0 agGoodImageIndex0)
| reach_loadFiles blank filenames s :
    reachable s → reachable (loadFiles blank filenames s)
| reach_mapLoadFile decode s :
    reachable s → reachable (mapLoadFile decode s)
| reach_loadFilesDone isCanceled s s' log :
    reachable s → loadFilesDone isCanceled s = Some (s', log) → reachable s'
| reach_removeFile idx s s' :
    reachable s → removeFile idx s = Some s' → reachable s'
| reach_clearFiles s :
    reachable s → reachable (clearFiles s)
| reach_reset s :
    reachable s → reachable (reset s).1
| reach_computePatches threshold HV_offset s s' r :
    reachable s → computePatches threshold HV_offset s = Some (s', r) → reachable s'
| reach_setPatches patches s :
    grid_wf agGridSize patches → reachable s → reachable (setPatches patches s)
| reach_createHdr s s' log outputFrame :
    reachable s → createHdr s = Some (s', log, outputFrame) → reachable s'
| reach_doAntiGhosting patches h0 manualAg canceled s s' log result :
    reachable s →
    doAntiGhosting patches h0 manualAg canceled s = Some (s', log, result) →
    reachable s'.

End ManagerStates.

(** * The comparison rule of the ghost detector, from the specification *)

(** Modelled from the spec: the comparison that [comparePatches] makes
    ([AutoAntighosting.cpp] is not part of the sources), "the deviation
    exceeds threshold x (baseline std-dev)". *)
Definition exceeds `{FloatOps float} (deviation threshold baseline : float) : bool :=
  bool_decide (¬ fle deviation (fmul threshold baseline)).

(** Modelled from the spec: [comparePatches] ([AutoAntighosting.cpp] is
    not part of the sources).  The specification says of it: "if the
    deviation exceeds threshold x (baseline std-dev) the cell is flagged
    ghosted".  [deviation] is the exposure and offset compensated patch
    deviation per channel, about which the specification says no more; a
    cell is flagged when the rule holds in some channel. *)
Definition comparePatches_spec `{FloatOps float} {Array2Df : Type}
    (deviation : HdrCreationItem float Array2Df → HdrCreationItem float Array2Df →
                 nat → nat → Z → Z → float → Z → Z → float * float * float)
    (good cand : HdrCreationItem float Array2Df) (i j : nat) (gridX gridY : Z)
    (threshold sR sG sB deltaEV : float) (dx dy : Z) : bool :=
  let '(dR, dG, dB) := deviation good cand i j gridX gridY deltaEV dx dy in
  exceeds dR threshold sR || exceeds dG threshold sG || exceeds dB threshold sB.

(** * The deghosting steps 1 and 2, from the specification *)

(** Steps 1 and 2 of the solver in the words of the specification, for one
    channel: the log-irradiance of that channel of the fused frame and of
    the reference frame, then the gradients of both fields. *)
Definition logIrradianceThenGradients {float Array2Df QImage : Type}
    `{!Array2DOps float Array2Df} `{!AutoAntighosting float Array2Df QImage}
    (width height : nat) (fused reference : Array2Df)
    : Array2Df * Array2Df * (Array2Df * Array2Df) * (Array2Df * Array2Df) :=
  let logFused := computeLogIrradiance (Array2Df_alloc width height) fused in
  let logReference := computeLogIrradiance (Array2Df_alloc width height) reference in
  (logFused, logReference,
   computeGradient (Array2Df_alloc width height) (Array2Df_alloc width height) logFused,
   computeGradient (Array2Df_alloc width height) (Array2Df_alloc width height) logReference).

(** The same four values as a stage of [doAntiGhosting] has them. *)
Definition stageSteps {Array2Df : Type} (st : @ChannelStage Array2Df)
    : Array2Df * Array2Df * (Array2Df * Array2Df) * (Array2Df * Array2Df) :=
  (logIrradiance st, logIrradianceGood st, gradient st, gradientGood st).

(** * Frames as channel containers ([Libpfs/frame.cpp]) *)

(** [pfs::Channel] ([channel.h] is not among the sources): what the frame
    needs of it is its name and its constructor, and that a channel
    constructed with a name carries that name. *)
Class ChannelOps (Channel : Type) := {
  getName : Channel → string;
  Channel_new : nat → nat → string → Channel;   (* new Channel(width, height, name) *)
  getName_new : ∀ w h name, getName (Channel_new w h name) = name
}.

Module PfsFrame.
Section WithChannel.
Context {Channel : Type} `{!ChannelOps Channel}.

(** [pfs::Frame]: its size and the vector of its channels. *)
Record Frame := {
  m_width : nat;
  m_height : nat;
  m_channels : list Channel
}.

(** [Frame(width, height)] *)
Definition Frame_new (width height : nat) : Frame :=
  {| m_width := width; m_height := height; m_channels := [] |}.

(** [std::find_if(m_channels.begin(), m_channels.end(), FindChannel(name))]:
    the position and the channel of the first match. *)
Definition findChannel (name : string) (f : Frame) : option (nat * Channel) :=
  list_find (λ channel, getName channel = name) (m_channels f).

(** [getChannel]: the channel of that name, or [NULL]. *)
Definition getChannel (name : string) (f : Frame) : option Channel :=
  match findChannel name f with
  | None => None
  | Some (_, ch) => Some ch
  end.

(** [createChannel]: the channel of that name if there is one, else a new
    one, pushed at the back. *)
Definition createChannel (name : string) (f : Frame) : Frame * Channel :=
  match findChannel name f with
  | Some (_, ch) => (f, ch)
  | None =>
    let ch := Channel_new (m_width f) (m_height f) name in
    ({| m_width := m_width f; m_height := m_height f;
        m_channels := m_channels f ++ [ch] |}, ch)
  end.

(** [removeChannel]: erases the first channel of that name, if any. *)
Definition removeChannel (name : string) (f : Frame) : Frame :=
  match findChannel name f with
  | Some (it, _) =>
    {| m_width := m_width f; m_height := m_height f;
       m_channels := delete it (m_channels f) |}
  | None => f
  end.

(** [getXYZChannels]: the three pointers, all [NULL] as soon as one of the
    three names is missing. *)
Definition getXYZChannels (f : Frame)
    : option Channel * option Channel * option Channel :=
  match findChannel "X" f with
  | None => (None, None, None)
  | Some (_, X) =>
    match findChannel "Y" f with
    | None => (None, None, None)
    | Some (_, Y) =>
      match findChannel "Z" f with
      | None => (None, None, None)
      | Some (_, Z) => (Some X, Some Y, Some Z)
      end
    end
  end.

(** [createXYZChannels] *)
Definition createXYZChannels (f : Frame) : Frame * (Channel * Channel * Channel) :=
  let '(f, X) := createChannel "X" f in
  let '(f, Y) := createChannel "Y" f in
  let '(f, Z) := createChannel "Z" f in
  (f, (X, Y, Z)).

(** The names of the channels, in container order. *)
Definition channelNames (f : Frame) : list string := getName <$> m_channels f.

End WithChannel.
Arguments Frame : clear implicits.
End PfsFrame.

(** * Copying a rectangle out of an array ([Libpfs/array2d.cpp]) *)

Module PfsArray2D.
Section WithFloat.
Context {float : Type}.

(** [pfs::Array2D]: [m_cols] columns, [m_rows] rows and the row major
    buffer [m_data]. *)
Record Array2D := {
  m_cols : nat;
  m_rows : nat;
  m_data : list float
}.

Definition getCols (a : Array2D) : nat := m_cols a.
Definition getRows (a : Array2D) : nat := m_rows a.
Definition getRawData (a : Array2D) : list float := m_data a.

(** The buffer holds [cols * rows] elements, as the constructor allocates. *)
Definition Array2D_wf (a : Array2D) : Prop :=
  length (m_data a) = m_cols a * m_rows a.

(** The element in column [x] of row [y]. *)
Definition element (a : Array2D) (x y : nat) : option float :=
  m_data a !! (y * m_cols a + x).

(** The assertions at the head of [copyArray] with a rectangle. *)
Definition copyArray_asserts (from to : Array2D) (x_ul y_ul x_br y_br : Z) : bool :=
  let IN_W := getCols from in
  let IN_H := getRows from in
  let OUT_H := getRows to in
  (OUT_H <=? IN_H) && (OUT_H <=? IN_H)
  && (0 <=? x_ul)%Z && (0 <=? y_ul)%Z
  && (x_br <=? Z.of_nat IN_W)%Z && (y_br <=? Z.of_nat IN_H)%Z.

(** One row of the copy: [tv[r*OUT_W + c] = fv[r*IN_W + c]] for every
    column [c], [fv] starting at [offset]. *)
Definition copyRow (fv : list float) (offset IN_W OUT_W : nat) (tv : list float) (r : nat)
    : option (list float) :=
  foldl_opt (λ tv c,
               v ← fv !! (offset + (r * IN_W + c));
               if r * OUT_W + c <? length tv
               then Some (<[r * OUT_W + c := v]> tv) else None)
            tv (seq 0 OUT_W).

(** [copyArray(from, to, x_ul, y_ul, x_br, y_br)].  The rows are handed to
    OpenMP threads; they write disjoint elements, so the rows are taken in
    order here.  [None]: an assertion fails or an index leaves a buffer. *)
Definition copyArray (from to : Array2D) (x_ul y_ul x_br y_br : Z) : option Array2D :=
  let fv := getRawData from in
  let tv := getRawData to in
  let IN_W := getCols from in
  let OUT_W := getCols to in
  let OUT_H := getRows to in
  if copyArray_asserts from to x_ul y_ul x_br y_br then
    let offset := Z.to_nat (Z.of_nat IN_W * y_ul + x_ul) in
    tv' ← foldl_opt (copyRow fv offset IN_W OUT_W) tv (seq 0 OUT_H);
    Some {| m_cols := m_cols to; m_rows := m_rows to; m_data := tv' |}
  else None.

End WithFloat.
Arguments Array2D : clear implicits.
End PfsArray2D.

(** * Shifting a preview image ([shiftQImage]) *)

Module Preview.

(** [QRgb] is an unsigned 32 bit value; [qRgba(r, g, b, a)] packs it. *)
Definition qRgba (r g b a : Z) : Z :=
  Z.lor (Z.lor (Z.lor (Z.shiftl (Z.land a 255) 24) (Z.shiftl (Z.land r 255) 16))
               (Z.shiftl (Z.land g 255) 8))
        (Z.land b 255).

(** A [QImage] of format [Format_ARGB32]: its size and its scan lines,
    each a row of [QRgb] values. *)
Record QImage := {
  width : nat;
  height : nat;
  scanLine : list (list Z)
}.

Definition QImage_wf (img : QImage) : Prop :=
  length (scanLine img) = height img
  ∧ Forall (λ line, length line = width img) (scanLine img).

(** [QImage(size, Format_ARGB32)] followed by [fill(pixel)]. *)
Definition filled (w h : nat) (pixel : Z) : QImage :=
  {| width := w; height := h; scanLine := replicate h (replicate w pixel) |}.

(** The pixel at column [x] of scan line [y]. *)
Definition pixelAt (img : QImage) (x y : nat) : option Z :=
  scanLine img !! y ≫= (.!! x).

(** The inner loop of [shiftQImage] over the columns [js] of one scan
    line: [inp] walks the input line in step with [j]. *)
Fixpoint shiftPixels (w : nat) (inp : list Z) (dx : Z) (js : list nat) (outp : list Z)
    : option (list Z) :=
  match js with
  | [] => Some outp
  | j :: rest =>
    if (Z.of_nat j + dx >=? Z.of_nat w)%Z then Some outp
    else if (Z.of_nat j + dx >=? 0)%Z then
      p ← inp !! j;
      shiftPixels w inp dx rest (<[Z.to_nat (Z.of_nat j + dx) := p]> outp)
    else shiftPixels w inp dx rest outp
  end.

(** The outer loop over the scan lines [rows]. *)
Fixpoint shiftLines (inImg : QImage) (dx dy : Z) (rows : list nat) (out : list (list Z))
    : option (list (list Z)) :=
  match rows with
  | [] => Some out
  | i :: rest =>
    if (Z.of_nat i + dy <? 0)%Z then shiftLines inImg dx dy rest out
    else if (Z.of_nat i + dy >=? Z.of_nat (height inImg))%Z then Some out
    else
      inp ← scanLine inImg !! i;
      outp ← out !! Z.to_nat (Z.of_nat i + dy);
      outp' ← shiftPixels (width inImg) inp dx (seq 0 (width inImg)) outp;
      shiftLines inImg dx dy rest (<[Z.to_nat (Z.of_nat i + dy) := outp']> out)
  end.

(** [shiftQImage]: [None] when a read leaves a scan line. *)
Definition shiftQImage (inImg : QImage) (dx dy : Z) : option QImage :=
  let out := filled (width inImg) (height inImg) (qRgba 0 0 0 0) in
  lines ← shiftLines inImg dx dy (seq 0 (height inImg)) (scanLine out);
  Some {| width := width out; height := height out; scanLine := lines |}.

End Preview.

(** ** Tone mapping operators: the registry

    [src/Libpfs/tm/TonemapOperator.cpp].  The enumeration [TMOperator] is
    declared in a header; the registry names eleven of its enumerators.
    An operator object is represented by its class. *)

Class TMOperatorEnum (TMOperator : Type) := {
  TMOperator_eq_dec :: EqDecision TMOperator;
  mantiuk06 : TMOperator;
  mantiuk08 : TMOperator;
  fattal : TMOperator;
  ferradans : TMOperator;
  mai : TMOperator;
  drago : TMOperator;
  durand : TMOperator;
  reinhard02 : TMOperator;
  reinhard05 : TMOperator;
  ashikhmin : TMOperator;
  pattanaik : TMOperator
}.

Module Tonemap.

Inductive TonemapOperator :=
| TonemapOperatorMantiuk06
| TonemapOperatorMantiuk08
| TonemapOperatorFattal02
| TonemapOperatorFerradans11
| TonemapOperatorMai11
| TonemapOperatorDrago03
| TonemapOperatorDurand02
| TonemapOperatorReinhard02
| TonemapOperatorReinhard05
| TonemapOperatorAshikhmin02
| TonemapOperatorPattanaik00.

Section WithEnum.
Context {TMOperator : Type} `{!TMOperatorEnum TMOperator}.

(** [getType()]: the [Key] of the [TonemapOperatorRegister<Key, ...>] that
    the class of the operator derives from. *)
Definition getType (op : TonemapOperator) : TMOperator :=
  match op with
  | TonemapOperatorMantiuk06 => mantiuk06
  | TonemapOperatorMantiuk08 => mantiuk08
  | TonemapOperatorFattal02 => fattal
  | TonemapOperatorFerradans11 => ferradans
  | TonemapOperatorMai11 => mai
  | TonemapOperatorDrago03 => drago
  | TonemapOperatorDurand02 => durand
  | TonemapOperatorReinhard02 => reinhard02
  | TonemapOperatorReinhard05 => reinhard05
  | TonemapOperatorAshikhmin02 => ashikhmin
  | TonemapOperatorPattanaik00 => pattanaik
  end.

(** [TonemapOperatorRegister<Key, ConcreteClass>::create]: a new
    [ConcreteClass]. *)
Definition create (Key : TMOperator) (ConcreteClass : TonemapOperator)
    : unit → TonemapOperator :=
  λ _, ConcreteClass.

(** The list handed to [map_list_of]. *)
Definition registry_list : list (TMOperator * (unit → TonemapOperator)) :=
  [ (mantiuk06, create mantiuk06 TonemapOperatorMantiuk06);
    (mantiuk08, create mantiuk08 TonemapOperatorMantiuk08);
    (fattal, create fattal TonemapOperatorFattal02);
    (ferradans, create ferradans TonemapOperatorFerradans11);
    (mai, create mai TonemapOperatorMai11);
    (drago, create drago TonemapOperatorDrago03);
    (durand, create durand TonemapOperatorDurand02);
    (reinhard02, create reinhard02 TonemapOperatorReinhard02);
    (reinhard05, create reinhard05 TonemapOperatorReinhard05);
    (ashikhmin, create ashikhmin TonemapOperatorAshikhmin02);
    (pattanaik, create pattanaik TonemapOperatorPattanaik00) ].

(** [registry().find(tmo)]: a [std::map] built from a list keeps the first
    entry of a key. *)
Definition registry_find (tmo : TMOperator) : option (unit → TonemapOperator) :=
  snd <$> find (λ entry, bool_decide (entry.1 = tmo)) registry_list.

(** [getTonemapOperator]; [inl what] is the [std::runtime_error] thrown. *)
Definition getTonemapOperator (tmo : TMOperator) : string + TonemapOperator :=
  match registry_find tmo with
  | Some creator => inr (creator ())
  | None => inl "Invalid TMOperator"%string
  end.

End WithEnum.

(** The detail level that [TonemapOperatorFattal02::tonemapFrame] derives
    from the original width and the width of the frame it is given. *)
Definition fattal_detail_level `{FloatOps float} (origxsize xsize : Z) : Z :=
  if (0 <? xsize)%Z then
    let ratio := fdiv (f_of_int origxsize) (f_of_int xsize) in
    if bool_decide (strict fle ratio (f_of_int 2)) then 3
    else if bool_decide (strict fle ratio (f_of_int 4)) then 2
    else if bool_decide (strict fle ratio (f_of_int 8)) then 1
    else 0
  else 3.

End Tonemap.

(** * A small instance to run the definitions on *)

Module Demo.

(** Floats are exact rationals; [log2] and [pow] are cut to integers. *)
#[global] Instance Qcle_total_order : TotalOrder Qcle.
Proof.
  split; [apply _|]. intros x y. unfold strict.
  destruct (decide (x ≤ y)%Qc) as [Hxy|Hxy], (decide (y ≤ x)%Qc) as [Hyx|Hyx].
  - right; left. by apply (anti_symm Qcle).
  - by left.
  - by right; right.
  - by destruct (total Qcle x y).
Qed.

#[global] Instance Qc_FloatOps : FloatOps Qc := {|
  f0 := 0%Qc;
  f100 := Qc_of_Z 100;
  f_of_int := Qc_of_Z;
  fsub := Qcminus;
  fmul := Qcmult;
  fdiv := Qcdiv;
  flog2 := λ q, Qc_of_Z (Z.log2 (Qfloor q));
  fpow2 := λ q, Q2Qc (Qpower 2 (Qfloor q));
  fle := Qcle
|}.

(** Arrays: a plane of pixels, a fresh allocation, or an operation
    applied to arrays and left unevaluated. *)
Inductive Arr :=
| Plane (pixels : list Qc)
| Alloc (w h : nat)
| Fn (name : string)
| App (fn arg : Arr).

Definition Apply (fn : string) (args : list Arr) : Arr := foldl App (Fn fn) args.

Definition pixel (a : Arr) (k : nat) : Qc :=
  match a with
  | Plane px => nth k px 0%Qc
  | _ => 0%Qc
  end.

#[global] Instance Arr_Array2DOps : Array2DOps Qc Arr := {|
  Array2Df_alloc := Alloc;
  array_min := λ _, 0%Qc
|}.

(** The deviation of a cell of a 2 x 2 frame: the squared difference of
    the one pixel in it, per channel. *)
Definition deviation (good cand : HdrCreationItem Qc Arr) (i j : nat) (gridX gridY : Z)
    (deltaEV : Qc) (dx dy : Z) : Qc * Qc * Qc :=
  let k := j * getWidth (frame (payload good)) + i in
  let sq (a b : Arr) := ((pixel a k - pixel b k) * (pixel a k - pixel b k))%Qc in
  (sq (chX (frame (payload good))) (chX (frame (payload cand))),
   sq (chY (frame (payload good))) (chY (frame (payload cand))),
   sq (chZ (frame (payload good))) (chZ (frame (payload cand)))).

#[global] Instance Demo_AutoAntighosting : AutoAntighosting Qc Arr unit := {|
  agGridSize := 2;
  hueSquaredMean := λ data HE, (getAverageLuminance ∘ payload) <$> data;
  findIndex := λ HE size, 0%Z;
  sdv := λ good cand deltaEV dx dy, (1%Qc, 1%Qc, 1%Qc);
  comparePatches := comparePatches_spec deviation;
  computeLogIrradiance := λ out a, Apply "computeLogIrradiance" [out; a];
  computeGradient := λ ox oy a,
    (Apply "computeGradient.x" [ox; oy; a], Apply "computeGradient.y" [ox; oy; a]);
  blendGradients_mask := λ ox oy gx gy ggx ggy mask,
    (Apply "blendGradients.x" [ox; oy; gx; gy; ggx; ggy],
     Apply "blendGradients.y" [ox; oy; gx; gy; ggx; ggy]);
  blendGradients_patches := λ ox oy gx gy ggx ggy patches gridX gridY,
    (Apply "blendGradients.x" [ox; oy; gx; gy; ggx; ggy],
     Apply "blendGradients.y" [ox; oy; gx; gy; ggx; ggy]);
  computeDivergence := λ out bx by', Apply "computeDivergence" [out; bx; by'];
  solve_pde_dct := λ F U, Apply "solve_pde_dct" [F; U];
  computeIrradiance := λ out a, Apply "computeIrradiance" [out; a];
  clampToZero := λ r g b m, (Apply "clampToZero" [r], Apply "clampToZero" [g],
                           Apply "clampToZero" [b]);
  shadesOfGrayAWB := λ r g b, (Apply "shadesOfGrayAWB.r" [r; g; b],
                               Apply "shadesOfGrayAWB.g" [r; g; b],
                               Apply "shadesOfGrayAWB.b" [r; g; b])
|}.

#[global] Instance Demo_Fusion : Fusion Qc Arr unit unit unit := {|
  response_setBPS := λ bps r, r;
  weight_setBPS := λ bps w, w;
  response_readFromFile := λ file r, (r, None);
  computeFusion := λ op r w frames,
    ({| getWidth := 2; getHeight := 2;
        chX := Apply "fusion.X" (chX ∘ fe_frame <$> frames);
        chY := Apply "fusion.Y" (chY ∘ fe_frame <$> frames);
        chZ := Apply "fusion.Z" (chZ ∘ fe_frame <$> frames) |}, r)
|}.

Definition frame2x2 (x y z : list Qc) : Frame Arr :=
  {| getWidth := 2; getHeight := 2; chX := Plane x; chY := Plane y; chZ := Plane z |}.

Definition loaded (ev lum : Qc) (f : Frame Arr) : ItemData Qc Arr :=
  {| isValid := true; hasEV := true; getEV := ev;
     hasAverageLuminance := true; getAverageLuminance := lum;
     getBitDepth := 8; frame := f |}.

Definition blank : ItemData Qc Arr :=
  {| isValid := false; hasEV := false; getEV := 0%Qc;
     hasAverageLuminance := false; getAverageLuminance := 0%Qc;
     getBitDepth := 0;
     frame := {| getWidth := 0; getHeight := 0;
                 chX := Plane []; chY := Plane []; chZ := Plane [] |} |}.

Definition q (z : Z) : Qc := Qc_of_Z z.

(** Three exposures of one scene; in the last one the pixel of cell
    (1, 0) has moved.  ["wide.tif"] has another size, ["broken.tif"] does
    not decode. *)
Definition decode (k : nat) (name : string) : ItemData Qc Arr :=
  if String.eqb name "dark.tif" then
    loaded (q (-2)) (q 1) (frame2x2 [q 1; q 2; q 3; q 4] [q 5; q 6; q 7; q 8] [q 1; q 1; q 1; q 1])
  else if String.eqb name "mid.tif" then
    loaded (q 0) (q 4) (frame2x2 [q 1; q 2; q 3; q 4] [q 5; q 6; q 7; q 8] [q 1; q 1; q 1; q 1])
  else if String.eqb name "bright.tif" then
    loaded (q 2) (q 16) (frame2x2 [q 1; q 5; q 3; q 4] [q 5; q 6; q 7; q 8] [q 1; q 1; q 1; q 1])
  else if String.eqb name "late.tif" then
    loaded (q 1) (q 8) (frame2x2 [q 1; q 2; q 3; q 4] [q 5; q 6; q 7; q 8] [q 1; q 1; q 1; q 1])
  else if String.eqb name "wide.tif" then
    loaded (q 0) (q 4)
           {| getWidth := 3; getHeight := 2;
              chX := Plane [q 1; q 2; q 3; q 4; q 5; q 6];
              chY := Plane [q 1; q 2; q 3; q 4; q 5; q 6];
              chZ := Plane [q 1; q 2; q 3; q 4; q 5; q 6] |}
  else blank.

Definition emptyManager : @HdrCreationManager Qc Arr unit unit unit unit :=
  {| m_data := []; m_tmpdata := []; m_evOffset := 0%Qc;
     m_response := (); m_weight := (); m_fusionOperator := ();
     m_responseCurveInputFilename := EmptyString;
     m_responseCurveOutputFilename := EmptyString;
     m_isLoadResponseCurve := false; m_agMask := None; m_align := false;
     m_futureWatcher_isRunning := false;
     m_agGoodImageIndex := 0%Z;
     m_patches := [[false; false]; [false; false]] |}.

(** The manager after loading the three exposures. *)
Definition threeExposures : @HdrCreationManager Qc Arr unit unit unit unit :=
  match loadBatch blank decode false ["dark.tif"; "mid.tif"; "bright.tif"]%string
                  emptyManager with
  | Some (s, _) => s
  | None => emptyManager
  end.

(** The same with a fourth exposure, loaded last. *)
Definition fourExposures : @HdrCreationManager Qc Arr unit unit unit unit :=
  match loadBatch blank decode false ["late.tif"]%string threeExposures with
  | Some (s, _) => s
  | None => emptyManager
  end.

(** The three exposures with whatever an earlier run left in the fields of
    the ghost detector. *)
Definition threeExposuresDirty : @HdrCreationManager Qc Arr unit unit unit unit :=
  set_ag 7%Z [[true; true]; [true; false]] threeExposures.

(** A pending batch of two decoded files of different size. *)
Definition pendingMismatch : @HdrCreationManager Qc Arr unit unit unit unit :=
  mapLoadFile decode (loadFiles blank ["dark.tif"; "wide.tif"]%string emptyManager).

Definition darkItem : HdrCreationItem Qc Arr :=
  LoadFile (decode 0) (newItem blank "dark.tif"%string).
Definition wideItem : HdrCreationItem Qc Arr :=
  LoadFile (decode 1) (newItem blank "wide.tif"%string).

(** A second request that names a stored file again. *)
Definition secondRequest : list string := ["mid.tif"; "late.tif"]%string.
Definition afterSecondRequest
    : @HdrCreationManager Qc Arr unit unit unit unit * list Event :=
  default (emptyManager, []) (loadBatch blank decode false secondRequest threeExposures).

Definition noOffsets : list (Z * Z) := [(0, 0); (0, 0); (0, 0)]%Z.

Definition half : Qc := Q2Qc (1 # 2).

(** The outcome of ghost detection at a low and at a high threshold. *)
Definition detectedAt (t : Qc)
    : @HdrCreationManager Qc Arr unit unit unit unit * @PatchesResult Qc :=
  default (emptyManager, {| pr_index := 0%Z; pr_patches := []; pr_percent := 0%Qc |})
          (computePatches t noOffsets threeExposures).

Definition noPatches : Grid := [[false; false]; [false; false]].

(** The fused frame of the three exposures and the blend of a call with
    [manualAg = false]. *)
Definition fused : Frame Arr :=
  match createHdr threeExposures with
  | Some (_, _, f) => f
  | None => frame blank
  end.

Definition midFrame : Frame Arr := frame (decode 1 "mid.tif"%string).

Definition patchBlend : @BlendFn Arr :=
  λ ox oy gx gy ggx ggy, blendGradients_patches ox oy gx gy ggx ggy noPatches 1%Z 1%Z.

Definition neverCanceled (k : nat) : bool := false.
Definition canceledAt (n k : nat) : bool := Nat.eqb k n.

End Demo.

(** * Further instances *)

Module Samples.

(** Channels that are their name and size. *)
#[global] Instance Demo_ChannelOps : ChannelOps (string * (nat * nat)) := {|
  getName := fst;
  Channel_new := λ w h name, (name, (w, h));
  getName_new := λ w h name, eq_refl
|}.

Definition xyzFrame : PfsFrame.Frame (string * (nat * nat)) :=
  (PfsFrame.createXYZChannels (PfsFrame.Frame_new 4 3)).1.

Definition preview3x2 : Preview.QImage :=
  {| Preview.width := 3; Preview.height := 2;
     Preview.scanLine := [[11; 12; 13]; [21; 22; 23]]%Z |}.

Definition array4x3 : PfsArray2D.Array2D Z :=
  {| PfsArray2D.m_cols := 4; PfsArray2D.m_rows := 3;
     PfsArray2D.m_data := [0; 1; 2; 3; 10; 11; 12; 13; 20; 21; 22; 23]%Z |}.
Definition array2x2 : PfsArray2D.Array2D Z :=
  {| PfsArray2D.m_cols := 2; PfsArray2D.m_rows := 2; PfsArray2D.m_data := [7; 7; 7; 7]%Z |}.
Definition array2x2Other : PfsArray2D.Array2D Z :=
  {| PfsArray2D.m_cols := 2; PfsArray2D.m_rows := 2; PfsArray2D.m_data := [1; 2; 3; 4]%Z |}.

(** A response curve that remembers the files read into it; reading
    ["missing.m"] fails. *)
#[global] Instance Failing_Fusion : Fusion Qc Demo.Arr (list string) unit unit := {|
  response_setBPS := λ bps r, r;
  weight_setBPS := λ bps w, w;
  response_readFromFile := λ file r,
    if String.eqb file "missing.m" then (r, Some "cannot open"%string)
    else (file :: r, None);
  computeFusion := λ op r w frames,
    ({| getWidth := 2; getHeight := 2;
        chX := Demo.Apply "fusion.X" (chX ∘ fe_frame <$> frames);
        chY := Demo.Apply "fusion.Y" (chY ∘ fe_frame <$> frames);
        chZ := Demo.Apply "fusion.Z" (chZ ∘ fe_frame <$> frames) |}, r)
|}.

(** Two decoded files wait to be merged, and a response curve is to be
    read from a file that is not there. *)
Definition pendingWithCurve
    : @HdrCreationManager Qc Demo.Arr unit (list string) unit unit :=
  {| m_data := [];
     m_tmpdata := [Demo.darkItem; LoadFile (Demo.decode 1) (newItem Demo.blank "mid.tif"%string)];
     m_evOffset := 0%Qc;
     m_response := []; m_weight := (); m_fusionOperator := ();
     m_responseCurveInputFilename := "missing.m"%string;
     m_responseCurveOutputFilename := EmptyString;
     m_isLoadResponseCurve := true; m_agMask := None; m_align := false;
     m_futureWatcher_isRunning := false;
     m_agGoodImageIndex := 0%Z;
     m_patches := [[false; false]; [false; false]] |}.

(** The three exposures with one more pending file, decoded. *)
Definition pendingLate : @HdrCreationManager Qc Demo.Arr unit unit unit unit :=
  mapLoadFile Demo.decode (loadFiles Demo.blank ["late.tif"]%string Demo.threeExposures).

(** An item without EXIF data between two that have it. *)
Definition withoutExif : @HdrCreationManager Qc Demo.Arr unit unit unit unit :=
  set_data [Demo.darkItem; newItem Demo.blank "scan.tif"%string; Demo.wideItem]
           Demo.emptyManager.

(** A shift that leaves its trace in the file name. *)
Definition markShifted (it : HdrCreationItem Qc Demo.Arr) (dx dy : Z)
    : HdrCreationItem Qc Demo.Arr :=
  {| filename := (filename it +:+ "+shifted")%string; payload := payload it |}.

(** The enumerators numbered in the order of the registry. *)
#[global] Instance nat_TMOperatorEnum : TMOperatorEnum nat := {|
  mantiuk06 := 0; mantiuk08 := 1; fattal := 2; ferradans := 3; mai := 4;
  drago := 5; durand := 6; reinhard02 := 7; reinhard05 := 8; ashikhmin := 9;
  pattanaik := 10
|}.



End Samples.

(** * Properties of the exposure store *)

Section StoreProofs.
Context {float Array2Df QImage ResponseCurve WeightFunction FusionOperator : Type}.
Context `{!FloatOps float} `{!Array2DOps float Array2Df}.
Context `{!AutoAntighosting float Array2Df QImage}.
Context `{!Fusion float Array2Df ResponseCurve WeightFunction FusionOperator}.

Abbreviation Item := (HdrCreationItem float Array2Df).
Abbreviation Manager :=
  (@HdrCreationManager float Array2Df QImage ResponseCurve WeightFunction FusionOperator).

Implicit Types s : Manager.

Lemma ceil_half_div n : ceil_half n = (n + 1) / 2.
Proof.
  unfold ceil_half, Qceiling, Qfloor. cbn [Qopp Qnum Qden].
  apply Nat2Z.inj. rewrite Nat2Z.inj_div, Nat2Z.inj_add.
  change (Z.of_nat 2) with 2%Z. change (Z.of_nat 1) with 1%Z.
  Z.div_mod_to_equations. lia.
Qed.

Lemma fle_Total : Total (fle (float := float)).
Proof. apply _. Qed.

Lemma merge_sort_is_the_sorted_list (evs sorted : list float) :
  Sorted fle sorted → sorted ≡ₚ evs → sorted = merge_sort fle evs.
Proof.
  intros Hs Hp. apply (Sorted_unique fle); [done| |].
  - apply Sorted_merge_sort, fle_Total.
  - by rewrite merge_sort_Permutation.
Qed.

Lemma refreshEVOffset_evOffset s :
  m_evOffset (refreshEVOffset s) =
    match knownEVs s with
    | [] => f0
    | [e] => e
    | evs => nth ((length evs + 1) / 2 - 1) (merge_sort fle evs) f0
    end.
Proof.
  unfold refreshEVOffset, knownEVs. destruct (m_data s) as [|it l] eqn:Hd; [done|].
  destruct (_ <$> filter _ (it :: l)) as [|e [|e' evs]]; done.
Qed.

Lemma refreshEVOffset_data s : m_data (refreshEVOffset s) = m_data s.
Proof.
  unfold refreshEVOffset. destruct (m_data s) as [|it l] eqn:Hd; [exact Hd|].
  destruct (_ <$> filter _ (it :: l)) as [|e [|e' evs]]; exact Hd.
Qed.

Lemma refreshEVOffset_tmpdata s : m_tmpdata (refreshEVOffset s) = m_tmpdata s.
Proof.
  unfold refreshEVOffset. destruct (m_data s) as [|it l]; [done|].
  destruct (_ <$> filter _ (it :: l)) as [|e [|e' evs]]; done.
Qed.


(** *** Loading *)

Lemma find_checkFileName (l : list Item) name :
  find (λ item, checkFileName item name) l = None ↔ name ∉ namesOf l.
Proof.
  unfold namesOf, checkFileName. induction l as [|it l IH]; cbn.
  - split; [intros _; apply not_elem_of_nil | done].
  - rewrite not_elem_of_cons. destruct (String.eqb_spec (filename it) name) as [->|Hne].
    + split; [done | by intros [? _]].
    + rewrite IH. split; [by intros ?; split | by intros [_ ?]].
Qed.

Lemma loadFiles_data blank fs s : m_data (loadFiles blank fs s) = m_data s.
Proof.
  unfold loadFiles. cbn. revert s. induction fs as [|p fs IH]; intros s; [done|].
  cbn. rewrite IH. by destruct (find _ _).
Qed.

(** What [loadFiles] schedules: the requested names that no stored item
    has, once per occurrence and in request order. *)
Lemma loadFiles_tmpdata blank fs s :
  m_tmpdata (loadFiles blank fs s) =
  m_tmpdata s ++ (newItem blank <$> filter (λ p, p ∉ namesOf (m_data s)) fs).
Proof.
  unfold loadFiles. cbn. revert s. induction fs as [|p fs IH]; intros s.
  - cbn. by rewrite app_nil_r.
  - cbn [foldl]. rewrite IH. rewrite filter_cons.
    destruct (find _ (m_data s)) as [it|] eqn:Hf.
    + rewrite decide_False; [done|].
      intros Hn. apply find_checkFileName in Hn. congruence.
    + apply find_checkFileName in Hf. rewrite decide_True by done.
      cbn. by rewrite <- app_assoc.
Qed.

Lemma namesOf_newItem (blank : ItemData float Array2Df) (fs : list string) :
  namesOf (newItem blank <$> fs) = fs.
Proof.
  unfold namesOf. rewrite <- list_fmap_compose.
  induction fs as [|p fs IH]; [done|]. cbn. by f_equal.
Qed.

Lemma namesOf_imap_LoadFile decode (l : list Item) :
  namesOf (imap (λ k, LoadFile (decode k)) l) = namesOf l.
Proof.
  unfold namesOf. rewrite fmap_imap.
  rewrite <- (imap_const filename l). by apply imap_ext.
Qed.

Lemma mapLoadFile_data decode s : m_data (mapLoadFile decode s) = m_data s.
Proof. done. Qed.

Lemma mapLoadFile_tmpdata decode s :
  m_tmpdata (mapLoadFile decode s) = imap (λ k, LoadFile (decode k)) (m_tmpdata s).
Proof. done. Qed.

Lemma namesOf_filter_sublist (P : Item → Prop) `{∀ x, Decision (P x)} (l : list Item) :
  namesOf (filter P l) `sublist_of` namesOf l.
Proof. unfold namesOf. apply fmap_sublist, sublist_filter. Qed.

(** The response curve block leaves both item lists alone and can only
    log an error. *)
Lemma loadResponseCurve_Some s s1 log1 :
  loadResponseCurve s = Some (s1, log1) →
  m_data s1 = m_data s ∧ m_tmpdata s1 = m_tmpdata s ∧ m_evOffset s1 = m_evOffset s
  ∧ ∀ e, e ∈ log1 → ∃ what, e = errorWhileLoading what.
Proof.
  unfold loadResponseCurve. destruct (m_isLoadResponseCurve s).
  - destruct (m_tmpdata s !! 0) as [it0|] eqn:H0; [|done]. cbn.
    destruct (response_readFromFile _ _) as [r' [what|]]; intros [= <- <-]; cbn;
      (repeat split; [done..|]); intros e He.
    + apply list_elem_of_singleton in He. eauto.
    + by apply elem_of_nil in He.
  - intros [= <- <-]. repeat split; [done..|]. intros e He. by apply elem_of_nil in He.
Qed.

Lemma loadResponseCurve_defined s :
  (m_isLoadResponseCurve s = true → m_tmpdata s ≠ []) →
  is_Some (loadResponseCurve s).
Proof.
  intros Hpre. unfold loadResponseCurve. destruct (m_isLoadResponseCurve s); [|done].
  destruct (m_tmpdata s) as [|it0 l]; [by destruct Hpre|]. cbn.
  by destruct (response_readFromFile _ _) as [r' [what|]].
Qed.

Lemma sameSize_spec w h (it : Item) :
  sameSize w h it = true ↔ getWidth (frame (payload it)) = w ∧ getHeight (frame (payload it)) = h.
Proof.
  unfold sameSize.
  rewrite negb_true_iff, orb_false_iff, !negb_false_iff.
  by rewrite !Nat.eqb_eq.
Qed.

(** [framesHaveSameSize] answers [true] exactly when no two items differ
    in width or height. *)
Lemma framesHaveSameSize_spec s b :
  framesHaveSameSize s = Some b →
  (b = true ↔ ∀ a c, a ∈ m_data s → c ∈ m_data s →
                 getWidth (frame (payload a)) = getWidth (frame (payload c))
                 ∧ getHeight (frame (payload a)) = getHeight (frame (payload c))).
Proof.
  unfold framesHaveSameSize. destruct (m_data s) as [|it0 rest]; [done|].
  intros [= <-]. rewrite forallb_forall. split.
  - intros Hall a c Ha Hc.
    assert (∀ x, x ∈ it0 :: rest →
              getWidth (frame (payload x)) = getWidth (frame (payload it0))
              ∧ getHeight (frame (payload x)) = getHeight (frame (payload it0))) as Hx.
    { intros x [->|Hin]%elem_of_cons; [done|].
      apply sameSize_spec, Hall. by apply list_elem_of_In. }
    destruct (Hx a Ha) as [-> ->], (Hx c Hc) as [-> ->]. done.
  - intros Hall x Hin%list_elem_of_In. apply sameSize_spec.
    apply Hall; [by right | by left].
Qed.

Lemma framesHaveSameSize_defined s : m_data s ≠ [] → is_Some (framesHaveSameSize s).
Proof. unfold framesHaveSameSize. by destruct (m_data s). Qed.

(** The two ways a batch that was not cancelled can end. *)
Lemma loadFilesDone_settled s s' log :
  loadFilesDone false s = Some (s', log) →
  m_tmpdata s' = [] ∧
  ((m_data s' = merged s ∧ framesHaveSameSize s' = Some true
    ∧ last log = Some finishedLoadingFiles)
   ∨ (m_data s' = [] ∧ last log = Some (errorWhileLoading msgDifferentSize))).
Proof.
  unfold loadFilesDone. cbn.
  destruct (loadResponseCurve s) as [[s1 log1]|] eqn:Hr; [|done]. cbn.
  apply loadResponseCurve_Some in Hr as (Hd & Ht & _ & _).
  destruct (framesHaveSameSize _) as [[]|] eqn:Hf; [| |done]; cbn; intros [= <- <-].
  - rewrite refreshEVOffset_tmpdata. split; [done|]. left.
    split; [|split; [exact Hf | by rewrite last_snoc]].
    rewrite refreshEVOffset_data. cbn. unfold merged. by rewrite Hd, Ht.
  - cbn. rewrite refreshEVOffset_tmpdata. split; [done|]. right. by rewrite last_snoc.
Qed.

(** A batch that was not cancelled runs into undefined behaviour only
    when the response curve block finds no pending item, or when the
    geometry check finds the store empty. *)
Lemma loadFilesDone_defined s :
  (m_isLoadResponseCurve s = true → m_tmpdata s ≠ []) →
  merged s ≠ [] →
  is_Some (loadFilesDone false s).
Proof.
  intros Hpre Hne. unfold loadFilesDone.
  destruct (loadResponseCurve_defined s Hpre) as [[s1 log1] Hr]. rewrite Hr.
  cbn [mbind option_bind].
  apply loadResponseCurve_Some in Hr as (Hd & Ht & _ & _).
  destruct (framesHaveSameSize_defined
              (refreshEVOffset
                 (set_tmpdata []
                    (set_data (m_data s1 ++ filter (λ it, isValid (payload it) = true)
                                                   (m_tmpdata s1)) s1))))
    as [same Hsame].
  { rewrite refreshEVOffset_data. cbn. by rewrite Hd, Ht. }
  rewrite Hsame. cbn. by destruct same.
Qed.

(** C4. When the items a settled batch leaves in the store do not all
    have one width and one height, [loadFilesDone] empties the store and
    reports the size mismatch; it does not announce a finished load. *)
Theorem size_mismatch_clears_store s (a b : Item) :
  (m_isLoadResponseCurve s = true → m_tmpdata s ≠ []) →
  a ∈ merged s → b ∈ merged s →
  getWidth (frame (payload a)) ≠ getWidth (frame (payload b))
  ∨ getHeight (frame (payload a)) ≠ getHeight (frame (payload b)) →
  ∃ s' log, loadFilesDone false s = Some (s', log)
            ∧ m_data s' = [] ∧ m_tmpdata s' = [] ∧ availableInputFiles s' = 0
            ∧ errorWhileLoading msgDifferentSize ∈ log
            ∧ finishedLoadingFiles ∉ log.
Proof.
  intros Hpre Ha Hb Hdiff. unfold loadFilesDone. cbn.
  destruct (loadResponseCurve_defined s Hpre) as [[s1 log1] Hr]. rewrite Hr. cbn.
  apply loadResponseCurve_Some in Hr as (Hd & Ht & _ & Hlog).
  set (s4 := refreshEVOffset _).
  assert (m_data s4 = merged s) as Hm.
  { unfold s4. rewrite refreshEVOffset_data. cbn. unfold merged. by rewrite Hd, Ht. }
  destruct (framesHaveSameSize_defined s4) as [same Hsame].
  { rewrite Hm. intros Hnil. rewrite Hnil in Ha. by apply elem_of_nil in Ha. }
  rewrite Hsame. cbn. destruct same.
  - apply framesHaveSameSize_spec in Hsame. destruct Hsame as [Hall _].
    rewrite Hm in Hall. destruct (Hall eq_refl a b Ha Hb). by destruct Hdiff.
  - cbn. eexists _, _. split; [done|]. cbn. unfold availableInputFiles. cbn.
    repeat split; [unfold s4; by rewrite refreshEVOffset_tmpdata| |].
    + apply elem_of_app. right. by left.
    + intros [Hin|Hin]%elem_of_app.
      * by destruct (Hlog _ Hin).
      * by apply list_elem_of_singleton in Hin.
Qed.

(** C8. A cancelled batch (a load that threw cancels the future) drops
    the pending items, reports a load error and nothing else, and leaves
    the stored items, their order and the EV offset as they were before
    the request. *)
Theorem cancelled_batch_keeps_store blank decode names s :
  (∃ s', loadFilesDone true s = Some (s', [errorWhileLoading msgLoadError])
         ∧ s' = set_tmpdata [] s
         ∧ m_tmpdata s' = [] ∧ m_data s' = m_data s ∧ m_evOffset s' = m_evOffset s)
  ∧ (∃ s', loadBatch blank decode true names s
           = Some (s', [errorWhileLoading msgLoadError])
           ∧ m_tmpdata s' = [] ∧ m_data s' = m_data s ∧ m_evOffset s' = m_evOffset s).
Proof.
  split; [by eexists|]. unfold loadBatch.
  exists (set_tmpdata [] (mapLoadFile decode (loadFiles blank names s))).
  split_and!; [done..| |].
  - change (m_data (loadFiles blank names s) = m_data s). apply loadFiles_data.
  - change (m_evOffset (loadFiles blank names s) = m_evOffset s).
    unfold loadFiles. cbn. generalize s. induction names as [|p fs IH]; intros s0; [done|].
    cbn. rewrite IH. by destruct (find _ _).
Qed.

Lemma one_item_per_stored_name (l : list Item) p :
  NoDup (namesOf l) → p ∈ namesOf l →
  length (filter (λ it, filename it = p) l) = 1.
Proof.
  unfold namesOf. induction l as [|it l IH]; intros Hnd Hin.
  { by apply elem_of_nil in Hin. }
  rewrite fmap_cons in Hnd, Hin. apply NoDup_cons in Hnd as [Hnotin Hnd].
  rewrite filter_cons. destruct (decide (filename it = p)) as [<-|Hne].
  - cbn. f_equal. apply length_zero_iff_nil.
    destruct (filter _ l) as [|it' l'] eqn:Hf; [done|].
    assert (it' ∈ filter (λ it0, filename it0 = filename it) l) as Hit'
      by (rewrite Hf; by left).
    apply list_elem_of_filter in Hit' as [Hname Hit'].
    destruct Hnotin. rewrite <- Hname. by apply list_elem_of_fmap_2.
  - apply IH; [done|]. by apply elem_of_cons in Hin as [?|?].
Qed.

Lemma scheduled_per_occurrence (blank : ItemData float Array2Df) (stored fs : list string) p :
  length (filter (λ it : Item, filename it = p)
                 (newItem blank <$> filter (λ x, x ∉ stored) fs))
  = if decide (p ∈ stored) then 0 else length (filter (λ x, x = p) fs).
Proof.
  induction fs as [|x fs IH]; [by destruct (decide _)|].
  rewrite (filter_cons (λ x, x ∉ stored)), (filter_cons (λ x, x = p)).
  destruct (decide (x ∉ stored)) as [Hx|Hx].
  - rewrite fmap_cons, filter_cons. change (filename (newItem blank x)) with x.
    destruct (decide (x = p)) as [->|Hne]; [|exact IH].
    cbn [length]. rewrite IH. by rewrite !decide_False.
  - rewrite IH. destruct (decide (x = p)) as [->|Hne]; [|done].
    destruct (decide (p ∈ stored)) as [|Hn]; [done | by destruct Hx].
Qed.

(** C3 (as the code has it).  Whatever is stored or pending, a load
    request leaves the store alone and appends to the pending list one new
    item for every occurrence of a requested name that no stored item
    carries, in request order: a stored name is not scheduled, and a name
    that is not stored is scheduled as often as the request has it.  When
    the names of a request are pairwise distinct, nothing is pending and
    the stored names are pairwise distinct, they are still pairwise
    distinct after the batch, however it ends, and a name that was stored
    before has exactly one item afterwards, unless the geometry check has
    emptied the store.  When a batch ends with [finishedLoadingFiles],
    the store is the old store followed by the pending items that decoded
    to a valid item, one for every scheduled occurrence. *)
Theorem load_keeps_stored_paths_distinct blank decode fs s :
  m_data (loadFiles blank fs s) = m_data s
  ∧ m_tmpdata (loadFiles blank fs s)
    = m_tmpdata s ++ (newItem blank <$> filter (λ p, p ∉ namesOf (m_data s)) fs)
  ∧ (∀ p, length (filter (λ it : Item, filename it = p) (m_tmpdata (loadFiles blank fs s)))
          = length (filter (λ it : Item, filename it = p) (m_tmpdata s))
            + (if decide (p ∈ namesOf (m_data s)) then 0
               else length (filter (λ x, x = p) fs)))
  ∧ (∀ isCanceled s' log,
       NoDup fs → NoDup (namesOf (m_data s)) → m_tmpdata s = [] →
       loadBatch blank decode isCanceled fs s = Some (s', log) →
       NoDup (namesOf (m_data s'))
       ∧ ∀ p, p ∈ namesOf (m_data s) → m_data s' ≠ [] →
           length (filter (λ it, filename it = p) (m_data s')) = 1)
  ∧ (∀ s' log,
       loadBatch blank decode false fs s = Some (s', log) →
       last log = Some finishedLoadingFiles →
       m_data s'
       = m_data s
         ++ filter (λ it, isValid (payload it) = true)
              (imap (λ k, LoadFile (decode k))
                    (m_tmpdata s
                     ++ (newItem blank <$> filter (λ p, p ∉ namesOf (m_data s)) fs)))).
Proof.
  pose proof (loadFiles_tmpdata blank fs s) as Hsched.
  split; [apply loadFiles_data|]. split; [exact Hsched|]. split.
  { intros p. rewrite Hsched, filter_app, length_app. f_equal.
    apply scheduled_per_occurrence. }
  split.
  - intros isCanceled s' log Hfs Hs Htmp Hdone. unfold loadBatch in Hdone.
    rewrite Htmp, app_nil_l in Hsched.
    assert (namesOf (m_tmpdata (loadFiles blank fs s))
            = filter (λ p, p ∉ namesOf (m_data s)) fs) as Hnames.
    { by rewrite Hsched, namesOf_newItem. }
    assert (NoDup (namesOf (merged (mapLoadFile decode (loadFiles blank fs s))))) as Hnd.
    { unfold merged. rewrite mapLoadFile_data, mapLoadFile_tmpdata, loadFiles_data.
      unfold namesOf at 1. rewrite fmap_app. apply NoDup_app.
      split; [done|]. split.
      - intros p Hp Hq.
        apply (sublist_subseteq _ _ (namesOf_filter_sublist _ _)) in Hq.
        rewrite namesOf_imap_LoadFile, Hnames in Hq.
        apply list_elem_of_filter in Hq. by destruct Hq.
      - eapply sublist_NoDup; [|apply namesOf_filter_sublist].
        rewrite namesOf_imap_LoadFile, Hnames.
        by apply NoDup_filter. }
    assert (NoDup (namesOf (m_data s'))
            ∧ (m_data s' ≠ [] → ∀ p, p ∈ namesOf (m_data s) → p ∈ namesOf (m_data s')))
      as [Hnd' Hkept].
    { destruct isCanceled.
      - injection Hdone as <- <-.
        change (m_data (set_tmpdata [] (mapLoadFile decode (loadFiles blank fs s))))
          with (m_data (loadFiles blank fs s)).
        by rewrite loadFiles_data.
      - apply loadFilesDone_settled in Hdone as [_ [(Hm & _)|[Hm _]]].
        + rewrite Hm. split; [done|]. intros _ p Hp. unfold merged.
          rewrite mapLoadFile_data, loadFiles_data. unfold namesOf.
          rewrite fmap_app. apply elem_of_app. by left.
        + rewrite Hm. split; [constructor | done]. }
    split; [done|]. intros p Hp Hne. apply one_item_per_stored_name; [done|].
    by apply Hkept.
  - intros s' log Hdone Hlast. unfold loadBatch in Hdone.
    apply loadFilesDone_settled in Hdone as [_ [(Hm & _)|[_ Herr]]].
    + rewrite Hm. unfold merged.
      by rewrite mapLoadFile_data, mapLoadFile_tmpdata, loadFiles_data, Hsched.
    + rewrite Hlast in Herr. discriminate Herr.
Qed.

End StoreProofs.

(** * Properties of the ghost detector *)

Section GridProofs.

Lemma grid_set_wf n i j v g : grid_wf n g → grid_wf n (grid_set i j v g).
Proof.
  intros [Hl Hr]. split.
  - unfold grid_set. by rewrite length_alter.
  - apply Forall_alter; [done|]. intros row _ Hrow. by rewrite length_insert.
Qed.

Lemma grid_get_set n g i j v i' j' :
  grid_wf n g → i < n → j < n →
  grid_get (grid_set i j v g) i' j'
  = if bool_decide (i = i' ∧ j = j') then v else grid_get g i' j'.
Proof.
  intros [Hl Hr] Hi Hj. unfold grid_get, grid_set.
  destruct (decide (i = i')) as [<-|Hne].
  - rewrite list_lookup_alter_eq. destruct (g !! i) as [row|] eqn:Hrow.
    + cbn. assert (length row = n) as Hlen by (by eapply Forall_lookup_1 in Hr).
      destruct (decide (j = j')) as [<-|Hnj].
      * rewrite list_lookup_insert_eq by lia. by rewrite bool_decide_true.
      * rewrite list_lookup_insert_ne by done.
        rewrite bool_decide_false; [done | by intros [_ ?]].
    + apply lookup_ge_None in Hrow. lia.
  - rewrite list_lookup_alter_ne by done.
    rewrite bool_decide_false; [done | by intros [? _]].
Qed.

(** Two arrays of the same shape with the same entries are the same. *)
Lemma grid_ext n g1 g2 :
  grid_wf n g1 → grid_wf n g2 →
  (∀ i j, i < n → j < n → grid_get g1 i j = grid_get g2 i j) → g1 = g2.
Proof.
  intros [Hl1 Hr1] [Hl2 Hr2] Hget.
  apply (list_eq_same_length _ _ n); [done..|]. intros i r1 r2 Hi H1 H2.
  assert (length r1 = n) as Hn1 by (by eapply Forall_lookup_1 in Hr1).
  assert (length r2 = n) as Hn2 by (by eapply Forall_lookup_1 in Hr2).
  apply (list_eq_same_length _ _ n); [done..|]. intros j b1 b2 Hj Hb1 Hb2.
  specialize (Hget i j Hi Hj). unfold grid_get in Hget.
  rewrite H1, H2 in Hget. cbn in Hget. by rewrite Hb1, Hb2 in Hget.
Qed.

Lemma foldl_nested {A} (f : A → nat → nat → A) (a : A) (l1 l2 : list nat) :
  foldl (λ a x, foldl (λ a y, f a x y) a l2) a l1
  = foldl (λ a c, f a c.1 c.2) a (list_prod l1 l2).
Proof.
  revert a. induction l1 as [|x l1 IH]; intros a; [done|].
  cbn [list_prod foldl]. rewrite foldl_app, <- IH. f_equal.
  clear IH. revert a. induction l2 as [|y l2 IH2]; intros a; [done|].
  cbn. by rewrite IH2.
Qed.

Lemma elem_of_list_prod_seq n (x y : nat) :
  (x, y) ∈ list_prod (seq 0 n) (seq 0 n) ↔ x < n ∧ y < n.
Proof. rewrite list_elem_of_In, in_prod_iff, !in_seq. lia. Qed.

(** Painting the cells [(j, i)] of a list for which [P i j] holds. *)
Lemma grid_paint n (P : nat → nat → bool) v cs g :
  grid_wf n g → Forall (λ c, c.1 < n ∧ c.2 < n) cs →
  grid_wf n (foldl (λ g c, if P c.2 c.1 then grid_set c.2 c.1 v g else g) g cs)
  ∧ ∀ i j, grid_get (foldl (λ g c, if P c.2 c.1 then grid_set c.2 c.1 v g else g) g cs) i j
           = if bool_decide ((j, i) ∈ cs) && P i j then v else grid_get g i j.
Proof.
  intros Hwf Hcs. revert g Hwf.
  induction Hcs as [|[cj ci] cs [Hcj Hci] _ IH]; intros g Hwf.
  - split; [done|]. intros i j. cbn. rewrite bool_decide_false; [done|]. apply not_elem_of_nil.
  - cbn [foldl fst snd]. cbn in Hcj, Hci.
    set (g1 := if P ci cj then grid_set ci cj v g else g).
    assert (grid_wf n g1) as Hwf1.
    { unfold g1. destruct (P ci cj); [by apply grid_set_wf | done]. }
    destruct (IH g1 Hwf1) as [Hwf' Hget]. split; [done|].
    intros i j. rewrite Hget.
    assert (grid_get g1 i j
            = if bool_decide (ci = i ∧ cj = j) && P i j then v else grid_get g i j) as ->.
    { unfold g1. destruct (P ci cj) eqn:HP.
      - rewrite (grid_get_set n) by done. case_bool_decide as Hc; [|done].
        destruct Hc as [<- <-]. by rewrite HP.
      - case_bool_decide as Hc; [|done]. destruct Hc as [<- <-]. by rewrite HP. }
    destruct (P i j); rewrite ?andb_true_r, ?andb_false_r; [|done].
    case_bool_decide as Hin.
    + rewrite bool_decide_true; [done | by right].
    + case_bool_decide as Hc.
      * destruct Hc as [<- <-]. rewrite bool_decide_true; [done | by left].
      * rewrite bool_decide_false; [done|].
        intros [Heq|?]%elem_of_cons; [|done]. injection Heq as -> ->. by apply Hc.
Qed.

Lemma foldl_count {A} (P : A → bool) (l : list A) (k : nat) :
  foldl (λ count c, if P c then S count else count) k l
  = k + length (filter (λ c, P c = true) l).
Proof.
  revert k. induction l as [|c l IH]; intros k; [cbn; lia|].
  cbn [foldl]. rewrite IH, filter_cons. destruct (P c) eqn:HP.
  - rewrite decide_True by done. cbn. lia.
  - rewrite decide_False by congruence. done.
Qed.


End GridProofs.

Section DetectorProofs.
Context {float Array2Df QImage ResponseCurve WeightFunction FusionOperator : Type}.
Context `{!FloatOps float} `{!Array2DOps float Array2Df}.
Context `{!AutoAntighosting float Array2Df QImage}.
Context `{!Fusion float Array2Df ResponseCurve WeightFunction FusionOperator}.

Abbreviation Item := (HdrCreationItem float Array2Df).
Abbreviation Manager :=
  (@HdrCreationManager float Array2Df QImage ResponseCurve WeightFunction FusionOperator).

Implicit Types (s : Manager) (g : Grid) (data : list Item) (HV : list (Z * Z)).

Lemma cells_in_range : Forall (λ c, c.1 < agGridSize ∧ c.2 < agGridSize) cells.
Proof. apply Forall_forall. intros [x y]. apply elem_of_list_prod_seq. Qed.

Lemma all_false_wf n : grid_wf n (replicate n (replicate n false)).
Proof.
  split; [by rewrite length_replicate|].
  apply Forall_replicate. by rewrite length_replicate.
Qed.

Lemma all_false_get n i j : grid_get (replicate n (replicate n false)) i j = false.
Proof.
  unfold grid_get. destruct (replicate n (replicate n false) !! i) as [row|] eqn:Hrow; [|done].
  apply lookup_replicate in Hrow as [-> _]. cbn.
  destruct (replicate n false !! j) as [b|] eqn:Hb; [|done].
  by apply lookup_replicate in Hb as [-> _].
Qed.

(** The clearing loops leave the all-false array, whatever was there. *)
Lemma clearPatches_all_false g :
  grid_wf agGridSize g →
  clearPatches g = replicate agGridSize (replicate agGridSize false).
Proof.
  intros Hwf. unfold clearPatches.
  rewrite (foldl_nested (λ g j i, grid_set i j false g)).
  destruct (grid_paint agGridSize (λ _ _, true) false cells g Hwf cells_in_range)
    as [Hwf' Hget].
  apply (grid_ext agGridSize); [exact Hwf' | apply all_false_wf |].
  intros i j Hi Hj. rewrite all_false_get.
  etrans; [apply Hget|]. rewrite bool_decide_true; [done|].
  by apply elem_of_list_prod_seq.
Qed.

Lemma markPatches_spec (good cand : Item) gx gy t sR sG sB dEV dx dy g :
  grid_wf agGridSize g →
  grid_wf agGridSize (markPatches good cand gx gy t sR sG sB dEV dx dy g)
  ∧ ∀ i j, i < agGridSize → j < agGridSize →
      grid_get (markPatches good cand gx gy t sR sG sB dEV dx dy g) i j
      = grid_get g i j || comparePatches good cand i j gx gy t sR sG sB dEV dx dy.
Proof.
  intros Hwf. unfold markPatches.
  rewrite (foldl_nested
             (λ g j i, if comparePatches good cand i j gx gy t sR sG sB dEV dx dy
                       then grid_set i j true g else g)).
  destruct (grid_paint agGridSize
              (λ i j, comparePatches good cand i j gx gy t sR sG sB dEV dx dy)
              true cells g Hwf cells_in_range) as [Hwf' Hget].
  split; [exact Hwf'|]. intros i j Hi Hj.
  etrans; [apply Hget|]. rewrite bool_decide_true by (by apply elem_of_list_prod_seq).
  cbn. destruct (comparePatches _ _ _ _ _ _ _ _ _ _ _ _ _); [by rewrite orb_true_r|].
  by rewrite orb_false_r.
Qed.

(** One turn of the loop over the images adds the cells that image flags. *)
Lemma patchesLoopBody_spec data HV gx gy t gi g h g' :
  grid_wf agGridSize g →
  patchesLoopBody data HV gx gy t gi g h = Some g' →
  grid_wf agGridSize g'
  ∧ ∀ i j, i < agGridSize → j < agGridSize →
      grid_get g' i j = grid_get g i j || flaggedBy data HV gx gy t gi h i j.
Proof.
  intros Hwf. unfold patchesLoopBody, flaggedBy.
  destruct (Z.of_nat h =? gi)%Z.
  { intros [= <-]. split; [done|]. intros. by rewrite orb_false_r. }
  destruct (lookupZ data gi) as [good|]; [|done]. cbn.
  destruct (data !! h) as [cand|]; [|done]. cbn.
  destruct (lookupZ HV gi) as [offGood|]; [|done]. cbn.
  destruct (HV !! h) as [offH|]; [|done]. cbn.
  destruct (sdv _ _ _ _ _) as [[sR sG] sB]. intros [= <-].
  by apply markPatches_spec.
Qed.



(** The whole loop: a cell ends up set when it was set before or some
    image flags it. *)
Lemma patchesLoop_spec data HV gx gy t gi hs g g' :
  grid_wf agGridSize g →
  foldl_opt (patchesLoopBody data HV gx gy t gi) g hs = Some g' →
  grid_wf agGridSize g'
  ∧ ∀ i j, i < agGridSize → j < agGridSize →
      grid_get g' i j
      = grid_get g i j || existsb (λ h, flaggedBy data HV gx gy t gi h i j) hs.
Proof.
  revert g. induction hs as [|h hs IH]; intros g Hwf; cbn.
  { intros [= <-]. split; [done|]. intros. by rewrite orb_false_r. }
  destruct (patchesLoopBody data HV gx gy t gi g h) as [g1|] eqn:H1; [|done].
  apply patchesLoopBody_spec in H1 as [Hwf1 Hget1]; [|done].
  intros Hrest. apply IH in Hrest as [Hwf' Hget']; [|done].
  split; [done|]. intros i j Hi Hj.
  by rewrite Hget', Hget1, orb_assoc.
Qed.

Lemma countPatches_flaggedCells g : countPatches g = flaggedCells g.
Proof.
  unfold countPatches, flaggedCells.
  rewrite (foldl_nested (λ count i j, if grid_get g i j then S count else count)).
  by rewrite (foldl_count (λ c, grid_get g c.1 c.2)).
Qed.

(** [computePatches] taken apart. *)
Lemma computePatches_Some t HV s s' r :
  grid_wf agGridSize (m_patches s) →
  computePatches t HV s = Some (s', r) →
  ∃ it0,
    m_data s !! 0 = Some it0 ∧ 2 ≤ length (m_data s)
    ∧ pr_index r = findIndex (hueSquaredMean (m_data s) (replicate (length (m_data s)) f0))
                             (length (m_data s))
    ∧ s' = set_ag (pr_index r) (pr_patches r) s
    ∧ grid_wf agGridSize (pr_patches r)
    ∧ pr_percent r = percentOf (flaggedCells (pr_patches r))
    ∧ ∀ i j, i < agGridSize → j < agGridSize →
        grid_get (pr_patches r) i j
        = existsb (λ h, flaggedBy (m_data s) HV
                          (Z.of_nat (getWidth (frame (payload it0))) ÷ Z.of_nat agGridSize)
                          (Z.of_nat (getHeight (frame (payload it0))) ÷ Z.of_nat agGridSize)
                          t (pr_index r) h i j)
                  (seq 0 (length (m_data s))).
Proof.
  intros Hwf. unfold computePatches.
  destruct (Nat.ltb_spec (length (m_data s)) 2) as [|Hsize].
  { by destruct (m_data s !! 0). }
  destruct (m_data s !! 0) as [it0|] eqn:H0; [|done]. cbn.
  rewrite (clearPatches_all_false _ Hwf).
  destruct (foldl_opt _ _ _) as [patches|] eqn:Hloop; [|done]. cbn.
  intros [= <- <-]. cbn.
  apply patchesLoop_spec in Hloop as [Hwf' Hget]; [|apply all_false_wf].
  exists it0. split_and!; [done..|by rewrite countPatches_flaggedCells|].
  intros i j Hi Hj. by rewrite Hget, all_false_get.
Qed.


(** C5. [computePatches] is a function of the items, the threshold and
    the offsets alone: two managers with the same items give the same
    patch array, reference index and percentage, and leave the same
    [m_patches] and [m_agGoodImageIndex] behind, whatever these two fields
    held before the call. *)
Theorem computePatches_deterministic t HV s1 s2 :
  m_data s1 = m_data s2 →
  grid_wf agGridSize (m_patches s1) → grid_wf agGridSize (m_patches s2) →
  snd <$> computePatches t HV s1 = snd <$> computePatches t HV s2
  ∧ (λ p, (m_agGoodImageIndex p.1, m_patches p.1)) <$> computePatches t HV s1
    = (λ p, (m_agGoodImageIndex p.1, m_patches p.1)) <$> computePatches t HV s2.
Proof.
  intros Hdata Hwf1 Hwf2. unfold computePatches.
  rewrite Hdata, (clearPatches_all_false _ Hwf1), (clearPatches_all_false _ Hwf2).
  destruct (m_data s2 !! 0) as [it0|]; [|done]. cbn [mbind option_bind].
  destruct (length (m_data s2) <? 2); [done|].
  by destruct (foldl_opt _ _ _).
Qed.

(** C7. In the array [computePatches] returns, a cell is set exactly when
    the comparison with some image other than the reference flags it, and
    the reported percentage is the number of set cells, divided by the
    number of cells of the grid, times 100. *)
Theorem patches_union_and_percent t HV s s' r :
  grid_wf agGridSize (m_patches s) →
  computePatches t HV s = Some (s', r) →
  ∃ it0, m_data s !! 0 = Some it0 ∧
    let gridX := (Z.of_nat (getWidth (frame (payload it0))) ÷ Z.of_nat agGridSize)%Z in
    let gridY := (Z.of_nat (getHeight (frame (payload it0))) ÷ Z.of_nat agGridSize)%Z in
    (∀ i j, i < agGridSize → j < agGridSize →
       grid_get (pr_patches r) i j = true ↔
       ∃ h, h < length (m_data s) ∧ Z.of_nat h ≠ pr_index r
            ∧ flaggedBy (m_data s) HV gridX gridY t (pr_index r) h i j = true)
    ∧ pr_percent r
      = fmul (fdiv (f_of_int (Z.of_nat (flaggedCells (pr_patches r))))
                   (f_of_int (Z.of_nat agGridSize * Z.of_nat agGridSize)))
             f100
    ∧ m_patches s' = pr_patches r.
Proof.
  intros Hwf Hrun.
  apply computePatches_Some in Hrun as (it0 & H0 & _ & _ & -> & _ & Hpct & Hget); [|done].
  exists it0. split; [done|]. cbv zeta. split_and!; [|done|done].
  intros i j Hi Hj. rewrite Hget by done. rewrite existsb_exists. split.
  - intros (h & Hin & Hflag). exists h. apply in_seq in Hin. split_and!; [lia| |done].
    intros Heq. unfold flaggedBy in Hflag. apply Z.eqb_eq in Heq. by rewrite Heq in Hflag.
  - intros (h & Hlt & _ & Hflag). exists h. split; [|done]. apply in_seq. lia.
Qed.



End DetectorProofs.

(** * Properties of the deghosting solver *)

Section SolverProofs.
Context {float Array2Df QImage ResponseCurve WeightFunction FusionOperator : Type}.
Context `{!FloatOps float} `{!Array2DOps float Array2Df}.
Context `{!AutoAntighosting float Array2Df QImage}.
Context `{!Fusion float Array2Df ResponseCurve WeightFunction FusionOperator}.

Abbreviation Manager :=
  (@HdrCreationManager float Array2Df QImage ResponseCurve WeightFunction FusionOperator).

Implicit Types (s : Manager) (canceled : nat → bool).

Lemma lookupZ_first {A} (l : list A) (k : Z) : is_Some (lookupZ l k) → is_Some (l !! 0).
Proof.
  unfold lookupZ. destruct (k <? 0)%Z; [by intros [? ?]|].
  intros Hk%lookup_lt_is_Some. apply lookup_lt_is_Some. lia.
Qed.

Lemma createHdr_defined s :
  is_Some (m_data s !! 0) →
  ∃ s1 log ghosted, createHdr s = Some (s1, log, ghosted)
    ∧ m_data s1 = m_data s ∧ m_tmpdata s1 = m_tmpdata s ∧ m_agMask s1 = m_agMask s.
Proof.
  intros [it0 H0]. unfold createHdr. rewrite H0. cbn.
  destruct (computeFusion _ _ _ _) as [outputFrame r]. by eexists _, _, _.
Qed.

Lemma reset_clears s :
  m_data (reset s).1 = [] ∧ m_tmpdata (reset s).1 = []
  ∧ m_agMask (reset s).1 = m_agMask s.
Proof. done. Qed.

Lemma selectBlend_defined manualAg patches gx gy s :
  (manualAg = true → is_Some (m_agMask s)) →
  is_Some (selectBlend manualAg patches gx gy s).
Proof.
  intros Hmask. unfold selectBlend. destruct manualAg; [|done].
  by destruct (Hmask eq_refl) as [mask ->].
Qed.

(** How a call ends, by the first checkpoint that reports cancellation:
    the store is emptied once the first checkpoint is passed, and a frame
    comes back only when no checkpoint reports cancellation. *)
Lemma doAntiGhosting_outcome patches h0 manualAg canceled s :
  is_Some (lookupZ (m_data s) h0) →
  (manualAg = true → is_Some (m_agMask s)) →
  ∃ s' log result,
    doAntiGhosting patches h0 manualAg canceled s = Some (s', log, result)
    ∧ (if canceled 0 then m_data s' = m_data s ∧ m_tmpdata s' = m_tmpdata s
       else m_data s' = [] ∧ m_tmpdata s' = [])
    ∧ (is_Some result ↔ ∀ k, k < 7 → canceled k = false).
Proof.
  intros Hgood Hmask. unfold doAntiGhosting.
  destruct (lookupZ_first _ _ Hgood) as [it0 H0]. rewrite H0.
  destruct Hgood as [good ->]. cbn [mbind option_bind].
  destruct (createHdr_defined s) as (s1 & logHdr & ghosted & -> & Hd & Ht & Hm);
    [by rewrite H0|].
  cbn [mbind option_bind].
  destruct (canceled 0) eqn:E0.
  { eexists _, _, _. split; [done|]. split; [done|]. split; [by intros [? ?]|].
    intros Hall. specialize (Hall 0). rewrite E0 in Hall. by specialize (Hall ltac:(lia)). }
  destruct (reset s1) as [s2 logReset] eqn:Hreset.
  assert (m_data s2 = [] ∧ m_tmpdata s2 = [] ∧ m_agMask s2 = m_agMask s1) as (Hd2 & Ht2 & Hm2).
  { pose proof (reset_clears s1) as Hr. by rewrite Hreset in Hr. }
  destruct (selectBlend_defined manualAg patches
              (Z.of_nat (getWidth (frame (payload it0))) ÷ Z.of_nat agGridSize)
              (Z.of_nat (getHeight (frame (payload it0))) ÷ Z.of_nat agGridSize) s2)
    as [blend ->]; [by rewrite Hm2, Hm|].
  cbn [mbind option_bind].
  destruct (channelStages _ _ _ _ _) as [[R G] B].
  destruct (canceled 1) eqn:E1; [|destruct (canceled 2) eqn:E2;
    [|destruct (canceled 3) eqn:E3; [|destruct (canceled 4) eqn:E4;
      [|destruct (canceled 5) eqn:E5; [|destruct (canceled 6) eqn:E6]]]]].
  7:{ destruct (clampToZero _ _ _ _) as [[U1 U2] U3].
      destruct (shadesOfGrayAWB _ _ _) as [[V1 V2] V3].
      eexists _, _, _. split; [done|]. split; [done|]. split; [|done].
      intros _ k Hk. do 7 (destruct k as [|k]; [done|]). lia. }
  all: eexists _, _, _; (split; [done|]); (split; [done|]);
    (split; [by intros [? ?]|]); intros Hall.
  - specialize (Hall 1 ltac:(lia)). congruence.
  - specialize (Hall 2 ltac:(lia)). congruence.
  - specialize (Hall 3 ltac:(lia)). congruence.
  - specialize (Hall 4 ltac:(lia)). congruence.
  - specialize (Hall 5 ltac:(lia)). congruence.
  - specialize (Hall 6 ltac:(lia)). congruence.
Qed.

(** C9. When the cancellation query answers "cancelled" at one of the
    seven checkpoints (after the fused frame is rebuilt, after each of the
    three solves, after each of the three reconstructions), the call
    returns the null frame. *)
Theorem cancel_returns_no_frame patches h0 manualAg canceled s k :
  is_Some (lookupZ (m_data s) h0) →
  (manualAg = true → is_Some (m_agMask s)) →
  k < 7 → canceled k = true →
  ∃ s' log, doAntiGhosting patches h0 manualAg canceled s = Some (s', log, None).
Proof.
  intros Hgood Hmask Hk Hc.
  destruct (doAntiGhosting_outcome patches h0 manualAg canceled s Hgood Hmask)
    as (s' & log & result & Hrun & _ & Hres).
  exists s', log. rewrite Hrun. destruct result as [fr|]; [|done].
  destruct Hres as [Hall _]. specialize (Hall ltac:(by eexists) k Hk). congruence.
Qed.

(** C10. A call that gets past its first checkpoint leaves the store
    empty, whatever it returns: no stored items, no pending items, and
    [availableInputFiles] is zero. *)
Theorem deghosting_clears_store patches h0 manualAg canceled s :
  is_Some (lookupZ (m_data s) h0) →
  (manualAg = true → is_Some (m_agMask s)) →
  canceled 0 = false →
  ∃ s' log result,
    doAntiGhosting patches h0 manualAg canceled s = Some (s', log, result)
    ∧ m_data s' = [] ∧ m_tmpdata s' = [] ∧ availableInputFiles s' = 0.
Proof.
  intros Hgood Hmask Hc.
  destruct (doAntiGhosting_outcome patches h0 manualAg canceled s Hgood Hmask)
    as (s' & log & result & Hrun & Hstore & _).
  rewrite Hc in Hstore. destruct Hstore as [Hd Ht].
  exists s', log, result. unfold availableInputFiles. by rewrite Hd.
Qed.

(** The red block does what steps 1 and 2 say, on the arrays it is given;
    so does the blue block. *)
Lemma stageRed_steps width height blend (Rc Good_Rc : Array2Df) :
  stageSteps (stageRed width height blend Rc Good_Rc)
  = logIrradianceThenGradients width height Rc Good_Rc.
Proof. done. Qed.

Lemma stageBlue_steps width height blend (Bc Good_Bc : Array2Df) :
  stageSteps (stageBlue width height blend Bc Good_Bc)
  = logIrradianceThenGradients width height Bc Good_Bc.
Proof. done. Qed.

(** The green block takes the gradient of the reference from an array
    nothing has been written to: it does not depend on the reference. *)
Lemma stageGreen_gradientGood width height blend (Gc Good_Gc : Array2Df) :
  gradientGood (stageGreen width height blend Gc Good_Gc)
  = computeGradient (Array2Df_alloc width height) (Array2Df_alloc width height)
                    (Array2Df_alloc width height).
Proof. done. Qed.

(** All three blocks read the X channel of the fused frame. *)
Lemma channelStages_fused_input width height blend (ghosted good : Frame Array2Df) :
  let '(R, G, B) := channelStages width height blend ghosted good in
  logIrradiance R = computeLogIrradiance (Array2Df_alloc width height) (chX ghosted)
  ∧ logIrradiance G = computeLogIrradiance (Array2Df_alloc width height) (chX ghosted)
  ∧ logIrradiance B = computeLogIrradiance (Array2Df_alloc width height) (chX ghosted).
Proof. done. Qed.

End SolverProofs.

(** * The rule of the specification is antitone in the threshold *)



Section DetectorSpecRule.
Context {float Array2Df QImage ResponseCurve WeightFunction FusionOperator : Type}.
Context `{!FloatOps float} `{!Array2DOps float Array2Df}.
Context `{!AutoAntighosting float Array2Df QImage}.
Context `{!Fusion float Array2Df ResponseCurve WeightFunction FusionOperator}.


End DetectorSpecRule.

(** * Worked instances *)

Section Instances.
Import Demo.

Lemma wf_2x2 (a b c d : bool) : grid_wf 2 [[a; b]; [c; d]].
Proof. split; [done|]. by repeat constructor. Qed.

(** C3, the claim as written fails: one request that names a file twice
    stores it twice. *)
Lemma duplicate_in_one_call_is_stored_twice :
  (λ p, namesOf (m_data p.1))
    <$> loadBatch blank decode false ["dark.tif"; "dark.tif"]%string emptyManager
  = Some ["dark.tif"; "dark.tif"]%string
  ∧ (λ p, length (filter (λ it, filename it = "dark.tif"%string) (m_data p.1)))
      <$> loadBatch blank decode false ["dark.tif"; "dark.tif"]%string emptyManager
    ≠ Some 1.
Proof. split; [reflexivity|]. vm_compute. discriminate. Qed.

Lemma load_keeps_stored_paths_distinct_witness :
  namesOf (m_tmpdata (loadFiles blank secondRequest threeExposures)) = ["late.tif"]%string
  ∧ NoDup (namesOf (m_data afterSecondRequest.1))
  ∧ namesOf (m_data afterSecondRequest.1)
    = ["dark.tif"; "mid.tif"; "bright.tif"; "late.tif"]%string.
Proof.
  assert (NoDup secondRequest) as Hreq.
  { apply (bool_decide_unpack _). vm_compute. exact I. }
  assert (NoDup (namesOf (m_data threeExposures))) as Hstored.
  { apply (bool_decide_unpack _). vm_compute. exact I. }
  assert (m_tmpdata threeExposures = []) as Hpending by reflexivity.
  assert (loadBatch blank decode false secondRequest threeExposures
          = Some (afterSecondRequest.1, afterSecondRequest.2)) as Hrun.
  { vm_compute. reflexivity. }
  assert (last afterSecondRequest.2 = Some finishedLoadingFiles) as Hlast.
  { vm_compute. reflexivity. }
  destruct (load_keeps_stored_paths_distinct blank decode secondRequest threeExposures)
    as (_ & Hsched & _ & Hdistinct & Hstore).
  destruct (Hdistinct false afterSecondRequest.1 afterSecondRequest.2
              Hreq Hstored Hpending Hrun) as [Hnodup _].
  split; [by rewrite Hsched|]. split; [exact Hnodup|].
  rewrite (Hstore afterSecondRequest.1 afterSecondRequest.2 Hrun Hlast). reflexivity.
Defined.

Lemma size_mismatch_clears_store_witness :
  ∃ s' log, loadFilesDone false pendingMismatch = Some (s', log)
            ∧ m_data s' = [] ∧ m_tmpdata s' = [] ∧ availableInputFiles s' = 0
            ∧ errorWhileLoading msgDifferentSize ∈ log
            ∧ finishedLoadingFiles ∉ log.
Proof.
  apply (size_mismatch_clears_store pendingMismatch darkItem wideItem).
  - intros Hflag. vm_compute in Hflag. discriminate.
  - apply (list_elem_of_lookup_2 _ 0). reflexivity.
  - apply (list_elem_of_lookup_2 _ 1). reflexivity.
  - left. vm_compute. lia.
Defined.

Lemma computePatches_deterministic_witness :
  snd <$> computePatches half noOffsets threeExposures
  = snd <$> computePatches half noOffsets threeExposuresDirty
  ∧ (λ p, pr_patches p.2) <$> computePatches half noOffsets threeExposuresDirty
    = Some [[false; false]; [true; false]].
Proof.
  assert (m_data threeExposures = m_data threeExposuresDirty) as Hdata by reflexivity.
  assert (grid_wf agGridSize (m_patches threeExposures)) as Hwf1 by apply wf_2x2.
  assert (grid_wf agGridSize (m_patches threeExposuresDirty)) as Hwf2 by apply wf_2x2.
  destruct (computePatches_deterministic half noOffsets threeExposures threeExposuresDirty
              Hdata Hwf1 Hwf2) as [Hsame _].
  split; [exact Hsame | vm_compute; reflexivity].
Defined.

Lemma patches_union_and_percent_witness :
  pr_patches (detectedAt half).2 = [[false; false]; [true; false]]
  ∧ flaggedBy (m_data threeExposures) noOffsets 1 1 half 0 2 1 0 = true
  ∧ pr_percent (detectedAt half).2
    = fmul (fdiv (f_of_int 1) (f_of_int 4)) f100
  ∧ m_patches (detectedAt half).1 = pr_patches (detectedAt half).2.
Proof.
  assert (grid_wf agGridSize (m_patches threeExposures)) as Hwf by apply wf_2x2.
  assert (computePatches half noOffsets threeExposures
          = Some ((detectedAt half).1, (detectedAt half).2)) as Hrun.
  { vm_compute. reflexivity. }
  destruct (patches_union_and_percent half noOffsets threeExposures
              (detectedAt half).1 (detectedAt half).2 Hwf Hrun)
    as (it0 & H0 & Hcell & Hpct & Hstate).
  split; [vm_compute; reflexivity|]. split; [vm_compute; reflexivity|].
  split; [|exact Hstate]. rewrite Hpct. vm_compute. reflexivity.
Defined.


Lemma cancel_returns_no_frame_witness :
  ∃ s' log, doAntiGhosting noPatches 1 false (canceledAt 3) threeExposures
            = Some (s', log, None).
Proof.
  assert (is_Some (lookupZ (m_data threeExposures) 1)) as Hgood.
  { vm_compute. by eexists. }
  assert (false = true → is_Some (m_agMask threeExposures)) as Hmask by discriminate.
  assert (3 < 7) as Hk by lia.
  assert (canceledAt 3 3 = true) as Hc by reflexivity.
  apply (cancel_returns_no_frame noPatches 1 false (canceledAt 3) threeExposures 3
           Hgood Hmask Hk Hc).
Defined.

Lemma deghosting_clears_store_witness :
  ∃ s' log result,
    doAntiGhosting noPatches 1 false neverCanceled threeExposures = Some (s', log, result)
    ∧ m_data s' = [] ∧ m_tmpdata s' = [] ∧ availableInputFiles s' = 0.
Proof.
  assert (is_Some (lookupZ (m_data threeExposures) 1)) as Hgood.
  { vm_compute. by eexists. }
  assert (false = true → is_Some (m_agMask threeExposures)) as Hmask by discriminate.
  assert (neverCanceled 0 = false) as Hc by reflexivity.
  apply (deghosting_clears_store noPatches 1 false neverCanceled threeExposures
           Hgood Hmask Hc).
Defined.

(** The offset is recomputed by [refreshEVOffset] only: the store that a
    size mismatch has emptied keeps the offset of the items it dropped. *)
Example evOffset_after_size_mismatch :
  (λ p, (length (m_data p.1), m_evOffset p.1)) <$> loadFilesDone false pendingMismatch
  = Some (0, q (-2)).
Proof. vm_compute. reflexivity. Qed.

(** A request without any file, or with none that decodes, on an empty
    store reads [m_data[0]] of an empty vector. *)
Example empty_batch_is_undefined :
  loadBatch blank decode false [] emptyManager = None
  ∧ loadBatch blank decode false ["broken.tif"]%string emptyManager = None.
Proof. split; reflexivity. Qed.

(** C1 on the three exposures.  The red block does what the claim says.
    The green block takes the log-irradiance of the X channel of the fused
    frame, not of its Y channel, and the gradient of the reference from a
    fresh allocation, not from the log-irradiance of the reference; the
    blue block takes the log-irradiance of the X channel of the fused
    frame, not of its Z channel. *)
Theorem green_and_blue_blocks_miss_their_channel :
  let '(R, G, B) := channelStages 2 2 patchBlend fused midFrame in
  stageSteps R = logIrradianceThenGradients 2 2 (chX fused) (chX midFrame)
  ∧ stageSteps G ≠ logIrradianceThenGradients 2 2 (chY fused) (chY midFrame)
  ∧ logIrradiance G = computeLogIrradiance (Alloc 2 2) (chX fused)
  ∧ gradientGood G = computeGradient (Alloc 2 2) (Alloc 2 2) (Alloc 2 2)
  ∧ stageSteps B ≠ logIrradianceThenGradients 2 2 (chZ fused) (chZ midFrame)
  ∧ logIrradiance B = computeLogIrradiance (Alloc 2 2) (chX fused).
Proof.
  vm_compute. split_and!; try reflexivity; discriminate.
Qed.

End Instances.

(** * Further properties of the manager *)

Section ManagerProofs.
Context {float Array2Df QImage ResponseCurve WeightFunction FusionOperator : Type}.
Context `{!FloatOps float} `{!Array2DOps float Array2Df}.
Context `{!AutoAntighosting float Array2Df QImage}.
Context `{!Fusion float Array2Df ResponseCurve WeightFunction FusionOperator}.

Abbreviation Item := (HdrCreationItem float Array2Df).
Abbreviation Manager :=
  (@HdrCreationManager float Array2Df QImage ResponseCurve WeightFunction FusionOperator).

Implicit Types (s : Manager).

Lemma foldl_push_back {A B} (P : A → bool) (f : A → B) (l : list A) (acc : list B) :
  foldl (λ acc x, if P x then acc ++ [f x] else acc) acc l
  = acc ++ (f <$> filter (λ x, P x = true) l).
Proof.
  revert acc. induction l as [|x l IH]; intros acc; [by rewrite app_nil_r|].
  cbn [foldl]. rewrite IH, filter_cons. destruct (P x) eqn:HP.
  - rewrite decide_True by done. by rewrite <- app_assoc.
  - rewrite decide_False by congruence. done.
Qed.

Lemma filter_no_luminance (l : list Item) :
  filter (λ x : Item, negb (hasAverageLuminance (payload x)) = true) l
  = filter (λ it : Item, hasAverageLuminance (payload it) = false) l.
Proof.
  induction l as [|x l IH]; [done|]. rewrite !filter_cons, IH.
  destruct (hasAverageLuminance (payload x)) eqn:E; cbn.
  - rewrite decide_False by done. by rewrite decide_False by done.
  - rewrite decide_True by done. by rewrite decide_True by done.
Qed.

(** X13. [getFilesWithoutExif] gives the names of the stored items that
    have no average luminance, in store order; [numFilesWithoutExif] is
    the length of that list, and it is zero exactly when every stored item
    has an average luminance. *)
Theorem files_without_exif_are_counted s :
  getFilesWithoutExif s
  = namesOf (filter (λ it : Item, hasAverageLuminance (payload it) = false) (m_data s))
  ∧ numFilesWithoutExif s = length (getFilesWithoutExif s)
  ∧ (numFilesWithoutExif s = 0
     ↔ ∀ it : Item, it ∈ m_data s → hasAverageLuminance (payload it) = true).
Proof.
  assert (getFilesWithoutExif s
          = namesOf (filter (λ it : Item, hasAverageLuminance (payload it) = false)
                            (m_data s))) as Hnames.
  { unfold getFilesWithoutExif.
    rewrite (foldl_push_back (λ x : Item, negb (hasAverageLuminance (payload x))) filename).
    by rewrite filter_no_luminance. }
  assert (numFilesWithoutExif s = length (getFilesWithoutExif s)) as Hnum.
  { rewrite Hnames. unfold numFilesWithoutExif, namesOf.
    rewrite (foldl_count (λ x : Item, negb (hasAverageLuminance (payload x)))).
    by rewrite filter_no_luminance, length_fmap. }
  split_and!; [done..|].
  rewrite Hnum, Hnames. unfold namesOf. rewrite length_fmap, length_zero_iff_nil.
  split.
  - intros Hnil it Hin. destruct (hasAverageLuminance (payload it)) eqn:E; [done|].
    assert (it ∈ filter (λ it : Item, hasAverageLuminance (payload it) = false) (m_data s))
      as Hf by by apply list_elem_of_filter.
    rewrite Hnil in Hf. by apply elem_of_nil in Hf.
  - generalize (m_data s). intros l Hall. induction l as [|x l IH]; [done|].
    rewrite filter_cons, decide_False.
    + apply IH. intros it Hin. apply Hall. by right.
    + rewrite (Hall x); [done | by left].
Qed.

Lemma refreshEVOffset_median s (sorted : list float) :
  Sorted fle sorted → sorted ≡ₚ knownEVs s →
  m_evOffset (refreshEVOffset s) = medianOf sorted.
Proof.
  intros Hs Hp. rewrite refreshEVOffset_evOffset.
  destruct (knownEVs s) as [|e [|e' evs]] eqn:He.
  - apply Permutation_nil_r in Hp. by subst.
  - apply Permutation_singleton_r in Hp. subst. unfold medianOf.
    by rewrite ceil_half_div.
  - cbv zeta. rewrite <- (merge_sort_is_the_sorted_list _ _ Hs Hp).
    unfold medianOf. rewrite ceil_half_div, (Permutation_length Hp).
    destruct sorted; [|done]. by apply Permutation_nil_l in Hp.
Qed.

Lemma knownEVs_refreshEVOffset s : knownEVs (refreshEVOffset s) = knownEVs s.
Proof. unfold knownEVs. by rewrite refreshEVOffset_data. Qed.

Lemma refreshEVOffset_curves s :
  m_isLoadResponseCurve (refreshEVOffset s) = m_isLoadResponseCurve s
  ∧ m_response (refreshEVOffset s) = m_response s
  ∧ m_weight (refreshEVOffset s) = m_weight s.
Proof.
  unfold refreshEVOffset. destruct (m_data s) as [|it l]; [done|].
  destruct (_ <$> filter _ (it :: l)) as [|e [|e' evs]]; done.
Qed.

(** X14. [removeFile] is defined exactly for an index of a stored item.
    It removes that item and no other: the items before it stay where they
    are, the items behind it move up by one, the pending list is left
    alone, and the EV offset is the median of the EVs that remain. *)
Theorem removeFile_removes_one (idx : Z) s :
  (is_Some (removeFile idx s) ↔ (0 ≤ idx < Z.of_nat (availableInputFiles s))%Z)
  ∧ ∀ s', removeFile idx s = Some s' →
      availableInputFiles s' + 1 = availableInputFiles s
      ∧ (∀ i, i < Z.to_nat idx → m_data s' !! i = m_data s !! i)
      ∧ (∀ i, Z.to_nat idx ≤ i → m_data s' !! i = m_data s !! S i)
      ∧ m_tmpdata s' = m_tmpdata s
      ∧ ∀ sorted, Sorted fle sorted → sorted ≡ₚ knownEVs s' →
          m_evOffset s' = medianOf sorted.
Proof.
  unfold removeFile, availableInputFiles. case_bool_decide as Hidx.
  - split; [by split; [|eexists]|]. intros s' [= <-].
    rewrite knownEVs_refreshEVOffset, refreshEVOffset_data, refreshEVOffset_tmpdata.
    cbn [m_data m_tmpdata set_data].
    split_and!.
    + rewrite length_delete; [lia|]. apply lookup_lt_is_Some. lia.
    + intros i Hi. by rewrite list_lookup_delete_lt.
    + intros i Hi. by rewrite list_lookup_delete_ge.
    + done.
    + intros sorted Hs Hp. by apply refreshEVOffset_median.
  - split; [|done]. split; [by intros [? ?] | done].
Qed.

Lemma createHdr_log s s1 log ghosted :
  createHdr s = Some (s1, log, ghosted) →
  m_futureWatcher_isRunning s1 = m_futureWatcher_isRunning s
  ∧ m_evOffset s1 = m_evOffset s
  ∧ ∀ e, e ∈ log → ∃ file, e = responseCurveWritten file.
Proof.
  unfold createHdr. destruct (m_data s !! 0) as [it0|]; [|done]. cbn.
  destruct (computeFusion _ _ _ _) as [outputFrame r]. intros [= <- <- _].
  split_and!; [done..|]. intros e.
  destruct (String.eqb _ _).
  - by intros ?%elem_of_nil.
  - intros ->%list_elem_of_singleton. by eexists.
Qed.

Lemma reset_log s e :
  e ∈ (reset s).2 →
  (e = alignTempFilesRemoved ∧ m_align s = true)
  ∨ (e = loadFilesAborted ∧ m_futureWatcher_isRunning s = true).
Proof.
  unfold reset. cbn.
  destruct (m_align s), (m_futureWatcher_isRunning s); cbn; intros Hin;
    repeat (apply elem_of_cons in Hin as [->|Hin]); try (by apply elem_of_nil in Hin); auto.
Qed.

(** X15. A batch that ends with [finishedLoadingFiles] has appended the
    valid pending items, in request order, behind the stored ones, which
    keep their positions; nothing is pending any more, all stored frames
    have one size, and the EV offset is the median of the EVs of the new
    store. *)
Theorem finished_batch_extends_store s s' log :
  loadFilesDone false s = Some (s', log) → finishedLoadingFiles ∈ log →
  m_data s' = merged s ∧ m_tmpdata s' = []
  ∧ (∀ i it, m_data s !! i = Some it → m_data s' !! i = Some it)
  ∧ (∀ a c : Item, a ∈ m_data s' → c ∈ m_data s' →
       getWidth (frame (payload a)) = getWidth (frame (payload c))
       ∧ getHeight (frame (payload a)) = getHeight (frame (payload c)))
  ∧ ∀ sorted, Sorted fle sorted → sorted ≡ₚ knownEVs s' →
      m_evOffset s' = medianOf sorted.
Proof.
  intros Hrun Hfin. revert Hrun Hfin. unfold loadFilesDone. cbv beta iota.
  destruct (loadResponseCurve s) as [[s1 log1]|] eqn:Hr; [|done].
  cbn [mbind option_bind]. cbv beta iota.
  apply loadResponseCurve_Some in Hr as (Hd1 & Ht1 & _ & Hlog).
  destruct (framesHaveSameSize _) as [[]|] eqn:Hsame; [| |done];
    cbn [mbind option_bind negb]; cbv beta iota; intros [= <- <-].
  - intros _.
    assert (m_data (refreshEVOffset (set_tmpdata [] (set_data
              (m_data s1 ++ filter (λ it : Item, isValid (payload it) = true) (m_tmpdata s1))
              s1))) = merged s) as Hd.
    { rewrite refreshEVOffset_data. cbn. unfold merged. by rewrite Hd1, Ht1. }
    split_and!.
    + done.
    + by rewrite refreshEVOffset_tmpdata.
    + intros i it Hi. rewrite Hd. unfold merged. by apply lookup_app_l_Some.
    + by apply (framesHaveSameSize_spec _ true).
    + intros sorted Hs Hp. rewrite knownEVs_refreshEVOffset in Hp.
      by apply refreshEVOffset_median.
  - intros [Hin|Hin%list_elem_of_singleton]%elem_of_app; [|done].
    by destruct (Hlog _ Hin).
Qed.

(** X16. A response curve file that cannot be read does not stop the
    batch: the error is reported, the bit depth of the first pending item
    is set on the response curve and the weight function all the same, the
    items are merged and checked as usual, and the request to load the
    curve stays set for the next batch. *)
Theorem failed_curve_read_does_not_stop_the_batch s (it0 : Item) rest r' what :
  m_isLoadResponseCurve s = true →
  m_tmpdata s = it0 :: rest →
  response_readFromFile (m_responseCurveInputFilename s)
    (response_setBPS (getBitDepth (payload it0)) (m_response s)) = (r', Some what) →
  merged s ≠ [] →
  ∃ s' final,
    loadFilesDone false s = Some (s', [errorWhileLoading what; final])
    ∧ ((final = finishedLoadingFiles ∧ m_data s' = merged s)
       ∨ (final = errorWhileLoading msgDifferentSize ∧ m_data s' = []))
    ∧ m_tmpdata s' = []
    ∧ m_isLoadResponseCurve s' = true
    ∧ m_response s' = r'
    ∧ m_weight s' = weight_setBPS (getBitDepth (payload it0)) (m_weight s).
Proof.
  intros Hload Htmp Hread Hne.
  destruct (loadFilesDone_defined s) as [[s' log] Hrun]; [by rewrite Htmp | done |].
  revert Hrun. unfold loadFilesDone, loadResponseCurve. cbv beta iota.
  rewrite Hload, Htmp. cbn [lookup list_lookup mbind option_bind]. cbv beta iota zeta.
  rewrite Hread. cbn [mbind option_bind]. cbv beta iota.
  destruct (framesHaveSameSize _) as [[]|] eqn:Hsame; [| |done];
    cbn [mbind option_bind negb]; cbv beta iota; intros [= <- <-].
  - eexists _, _. split; [done|].
    split_and!.
    + left. split; [done|]. rewrite refreshEVOffset_data. cbn. unfold merged.
      by rewrite Htmp.
    + by rewrite refreshEVOffset_tmpdata.
    + by rewrite (proj1 (refreshEVOffset_curves _)).
    + by rewrite (proj1 (proj2 (refreshEVOffset_curves _))).
    + by rewrite (proj2 (proj2 (refreshEVOffset_curves _))).
  - eexists _, _. split; [done|].
    split_and!.
    + right. done.
    + cbn. by rewrite refreshEVOffset_tmpdata.
    + cbn. by rewrite (proj1 (refreshEVOffset_curves _)).
    + cbn. by rewrite (proj1 (proj2 (refreshEVOffset_curves _))).
    + cbn. by rewrite (proj2 (proj2 (refreshEVOffset_curves _))).
Qed.

(** X17. [computePatches] keeps what it hands back: [getAgData] then gives
    the same patch array and reference index, the array still has
    [agGridSize] rows of [agGridSize] cells, and neither the items nor the
    EV offset have changed. *)
Theorem computePatches_then_getAgData (t : float) (HV : list (Z * Z)) s s' r :
  grid_wf agGridSize (m_patches s) →
  computePatches t HV s = Some (s', r) →
  getAgData s' = (pr_patches r, pr_index r)
  ∧ grid_wf agGridSize (getAgData s').1
  ∧ m_data s' = m_data s ∧ m_tmpdata s' = m_tmpdata s ∧ m_evOffset s' = m_evOffset s
  ∧ setPatches (pr_patches r) s' = s'.
Proof.
  intros Hwf Hrun.
  destruct (computePatches_Some t HV s s' r Hwf Hrun) as (it0 & _ & _ & _ & -> & Hwf' & _).
  done.
Qed.

(** Events that say nothing about progress. *)
Lemma createHdr_quiet s s1 log ghosted :
  createHdr s = Some (s1, log, ghosted) →
  progressValues log = [] ∧ (progressStarted ∉ log) ∧ (progressFinished ∉ log)
  ∧ (loadFilesAborted ∉ log).
Proof.
  intros Hrun. destruct (createHdr_log s s1 log ghosted Hrun) as (_ & _ & Hlog).
  split_and!.
  - clear Hrun. induction log as [|e log IH]; [done|].
    destruct (Hlog e) as [file ->]; [by left|]. cbn. apply IH.
    intros e' He'. apply Hlog. by right.
  - intros Hin. by destruct (Hlog _ Hin).
  - intros Hin. by destruct (Hlog _ Hin).
  - intros Hin. by destruct (Hlog _ Hin).
Qed.

Lemma reset_quiet s :
  progressValues (reset s).2 = [] ∧ (progressStarted ∉ (reset s).2)
  ∧ (progressFinished ∉ (reset s).2).
Proof.
  split_and!.
  - unfold reset. cbn. by destruct (m_align s), (m_futureWatcher_isRunning s).
  - intros Hin. by destruct (reset_log s _ Hin) as [[? _]|[? _]].
  - intros Hin. by destruct (reset_log s _ Hin) as [[? _]|[? _]].
Qed.

(** X18. The progress signals of [doAntiGhosting]: [progressStarted] is
    emitted on every call; the progress values come in the order 0, 20, 60,
    76, 93, 94, 95, 96, 100 and stop at the checkpoint that reports
    cancellation; [progressFinished] is emitted exactly when a frame is
    returned, so a cancelled call starts the progress display and never
    finishes it. *)
Theorem deghosting_progress_signals (patches : Grid) (h0 : Z) (manualAg : bool)
    (canceled : nat → bool) s :
  is_Some (lookupZ (m_data s) h0) →
  (manualAg = true → is_Some (m_agMask s)) →
  ∃ s' log result,
    doAntiGhosting patches h0 manualAg canceled s = Some (s', log, result)
    ∧ progressStarted ∈ log
    ∧ (progressFinished ∈ log ↔ is_Some result)
    ∧ progressValues log `prefix_of` [0; 20; 60; 76; 93; 94; 95; 96; 100]%Z
    ∧ (progressValues log = [0; 20; 60; 76; 93; 94; 95; 96; 100]%Z ↔ is_Some result).
Proof.
  intros Hgood Hmask. unfold doAntiGhosting.
  destruct (lookupZ_first _ _ Hgood) as [it0 H0]. rewrite H0.
  destruct Hgood as [good ->]. cbn [mbind option_bind].
  destruct (createHdr_defined s) as (s1 & logHdr & ghosted & Hhdr & Hd & Ht & Hm);
    [by rewrite H0|].
  rewrite Hhdr. cbn [mbind option_bind].
  destruct (createHdr_quiet _ _ _ _ Hhdr) as (Hv1 & Hs1 & Hf1 & _).
  assert (∀ l1 l2, progressValues (l1 ++ l2) = progressValues l1 ++ progressValues l2)
    as Happ by (intros; apply omap_app).
  destruct (canceled 0) eqn:E0.
  { eexists _, _, _. split; [done|]. split_and!.
    - rewrite !elem_of_app, !elem_of_cons. tauto.
    - split; [|by intros [? ?]]. rewrite !elem_of_app, !elem_of_cons, !elem_of_nil.
      intros Hin. destruct_or!; done.
    - rewrite !Happ, Hv1. cbn. by eexists.
    - rewrite !Happ, Hv1. cbn. split; [done | by intros [? ?]]. }
  destruct (reset s1) as [s2 logReset] eqn:Hreset.
  destruct (reset_quiet s1) as (Hv2 & Hs2 & Hf2). rewrite Hreset in Hv2, Hs2, Hf2.
  cbn [snd] in Hv2, Hs2, Hf2.
  assert (m_agMask s2 = m_agMask s1) as Hm2.
  { pose proof (reset_clears s1) as Hr. rewrite Hreset in Hr. apply Hr. }
  destruct (selectBlend_defined manualAg patches
              (Z.of_nat (getWidth (frame (payload it0))) ÷ Z.of_nat agGridSize)
              (Z.of_nat (getHeight (frame (payload it0))) ÷ Z.of_nat agGridSize) s2)
    as [blend ->]; [by rewrite Hm2, Hm|].
  cbn [mbind option_bind].
  destruct (channelStages _ _ _ _ _) as [[R G] B].
  destruct (canceled 1) eqn:E1; [|destruct (canceled 2) eqn:E2;
    [|destruct (canceled 3) eqn:E3; [|destruct (canceled 4) eqn:E4;
      [|destruct (canceled 5) eqn:E5; [|destruct (canceled 6) eqn:E6]]]]].
  7:{ destruct (clampToZero _ _ _ _) as [[U1 U2] U3].
      destruct (shadesOfGrayAWB _ _ _) as [[V1 V2] V3].
      eexists _, _, _. split; [done|]. split_and!.
      - rewrite !elem_of_app, !elem_of_cons. tauto.
      - split; [by eexists|]. intros _. rewrite !elem_of_app, !elem_of_cons. tauto.
      - rewrite !Happ, Hv1, Hv2. cbn. by eexists [].
      - rewrite !Happ, Hv1, Hv2. cbn. split; [by eexists | done]. }
  all: eexists _, _, _; (split; [done|]); split_and!;
    [ rewrite !elem_of_app, !elem_of_cons; tauto
    | split; [|by intros [? ?]]; rewrite !elem_of_app, !elem_of_cons, !elem_of_nil;
      intros Hin; destruct_or!; done
    | rewrite !Happ, Hv1, Hv2; cbn; by eexists
    | rewrite !Happ, Hv1, Hv2; cbn; split; [done | by intros [? ?]] ].
Qed.

(** X19. A call that is cancelled at its first checkpoint, right after the
    fused frame has been rebuilt, returns no frame and leaves the stored
    and the pending items, the EV offset and a running load as they
    were. *)
Theorem first_checkpoint_cancel_keeps_store (patches : Grid) (h0 : Z) (manualAg : bool)
    (canceled : nat → bool) s :
  is_Some (lookupZ (m_data s) h0) →
  canceled 0 = true →
  ∃ s' log,
    doAntiGhosting patches h0 manualAg canceled s = Some (s', log, None)
    ∧ m_data s' = m_data s ∧ m_tmpdata s' = m_tmpdata s
    ∧ availableInputFiles s' = availableInputFiles s
    ∧ m_evOffset s' = m_evOffset s
    ∧ (loadFilesAborted ∉ log).
Proof.
  intros Hgood Hc. unfold doAntiGhosting.
  destruct (lookupZ_first _ _ Hgood) as [it0 H0]. rewrite H0.
  destruct Hgood as [good ->]. cbn [mbind option_bind].
  destruct (createHdr_defined s) as (s1 & logHdr & ghosted & Hhdr & Hd & Ht & Hm);
    [by rewrite H0|].
  rewrite Hhdr. cbn [mbind option_bind]. rewrite Hc.
  destruct (createHdr_quiet _ _ _ _ Hhdr) as (_ & _ & _ & Ha).
  destruct (createHdr_log _ _ _ _ Hhdr) as (_ & He & _).
  eexists _, _. split; [done|]. unfold availableInputFiles. rewrite Hd.
  split_and!; [done..|].
  rewrite !elem_of_app, !elem_of_cons, !elem_of_nil. intros Hin. destruct_or!; done.
Qed.

(** The loop of [applyShiftsToItems] over the indices [a .. a + n - 1]. *)
Lemma shiftLoop_spec (shiftItem : Item → Z → Z → Item) (hvOffsets : list (Z * Z)) n :
  ∀ a (data : list Item),
  a + n ≤ length data → a + n ≤ length hvOffsets →
  ∃ data',
    foldl_opt (λ data i,
                 off ← hvOffsets !! i;
                 if (off.1 =? off.2)%Z && (off.1 =? 0)%Z then Some data
                 else it ← data !! i; Some (<[i := shiftItem it off.1 off.2]> data))
              data (seq a n) = Some data'
    ∧ length data' = length data
    ∧ ∀ i, data' !! i
           = if bool_decide (a ≤ i < a + n)
             then it ← data !! i; off ← hvOffsets !! i;
                  Some (if decide (off.1 = 0 ∧ off.2 = 0)%Z then it
                        else shiftItem it off.1 off.2)
             else data !! i.
Proof.
  induction n as [|n IH]; intros a data Hd Hh.
  { exists data. split_and!; [done..|]. intros i. rewrite bool_decide_false; [done|lia]. }
  cbn [seq foldl_opt].
  destruct (lookup_lt_is_Some_2 hvOffsets a) as [[dx dy] Hoff]; [lia|].
  destruct (lookup_lt_is_Some_2 data a) as [it Hit]; [lia|].
  rewrite Hoff. cbn [mbind option_bind fst snd].
  set (data1 := if decide (dx = 0 ∧ dy = 0)%Z then data
                else <[a := shiftItem it dx dy]> data).
  assert (length data1 = length data) as Hlen1.
  { unfold data1. destruct (decide _); [done|]. by rewrite length_insert. }
  assert (∀ i, data1 !! i
               = if bool_decide (i = a)
                 then Some (if decide (dx = 0 ∧ dy = 0)%Z then it else shiftItem it dx dy)
                 else data !! i) as Hget1.
  { intros i. unfold data1. destruct (decide (dx = 0 ∧ dy = 0)%Z).
    - case_bool_decide; [by subst|done].
    - case_bool_decide as Hi.
      + subst. rewrite list_lookup_insert_eq; [done|]. apply lookup_lt_is_Some. by eexists.
      + by rewrite list_lookup_insert_ne. }
  assert ((if (dx =? dy)%Z && (dx =? 0)%Z then Some data
           else it ← data !! a; Some (<[a := shiftItem it dx dy]> data)) = Some data1) as ->.
  { unfold data1. destruct (Z.eqb_spec dx dy) as [->|Hne]; cbn [andb].
    - destruct (Z.eqb_spec dy 0) as [->|Hne].
      + by rewrite decide_True.
      + rewrite decide_False by lia. by rewrite Hit.
    - rewrite decide_False by lia. by rewrite Hit. }
  destruct (IH (S a) data1) as (data' & -> & Hlen & Hget); [lia..|].
  exists data'. split_and!; [done | congruence |].
  intros i. rewrite Hget, Hget1.
  destruct (decide (i = a)) as [->|Hia].
  - rewrite bool_decide_false by lia. rewrite !bool_decide_true by lia.
    rewrite Hit, Hoff. done.
  - rewrite (bool_decide_false (i = a)) by done.
    case_bool_decide; [rewrite bool_decide_true by lia | rewrite bool_decide_false by lia];
      done.
Qed.

Lemma shiftLoop_needs_offsets (shiftItem : Item → Z → Z → Item) (hvOffsets : list (Z * Z)) n :
  ∀ a (data : list Item),
  is_Some (foldl_opt (λ data i,
                 off ← hvOffsets !! i;
                 if (off.1 =? off.2)%Z && (off.1 =? 0)%Z then Some data
                 else it ← data !! i; Some (<[i := shiftItem it off.1 off.2]> data))
              data (seq a n)) →
  n = 0 ∨ a + n ≤ length hvOffsets.
Proof.
  induction n as [|n IH]; intros a data; [by left|].
  intros Hsome. right. revert Hsome. cbn [seq foldl_opt].
  destruct (hvOffsets !! a) as [off|] eqn:Hoff; [|by intros [? ?]].
  apply lookup_lt_Some in Hoff. cbn [mbind option_bind].
  destruct (if (off.1 =? off.2)%Z && (off.1 =? 0)%Z then Some data
            else it ← data !! a; Some (<[a := shiftItem it off.1 off.2]> data))
    as [data1|]; [|by intros [? ?]].
  intros Hrest. destruct (IH _ _ Hrest); lia.
Qed.

(** X20. [applyShiftsToItems] is defined exactly when there is an offset
    for every stored item.  It then shifts item [i] by [hvOffsets[i]] and
    leaves an item whose two offsets are zero untouched; the number and
    the order of the items stay, and further offsets are ignored. *)
Theorem applyShiftsToItems_shifts_each_item (shiftItem : Item → Z → Z → Item)
    (hvOffsets : list (Z * Z)) s :
  (is_Some (applyShiftsToItems shiftItem hvOffsets s)
   ↔ availableInputFiles s ≤ length hvOffsets)
  ∧ ∀ s', applyShiftsToItems shiftItem hvOffsets s = Some s' →
      availableInputFiles s' = availableInputFiles s
      ∧ m_tmpdata s' = m_tmpdata s
      ∧ ∀ i (it : Item) dx dy,
          m_data s !! i = Some it → hvOffsets !! i = Some (dx, dy) →
          m_data s' !! i
          = Some (if decide (dx = 0 ∧ dy = 0)%Z then it else shiftItem it dx dy).
Proof.
  unfold applyShiftsToItems, availableInputFiles. cbv zeta. split.
  - split.
    + intros Hsome.
      destruct (shiftLoop_needs_offsets shiftItem hvOffsets (length (m_data s)) 0 (m_data s))
        as [->|?]; [|lia..].
      destruct (foldl_opt _ _ _); [by eexists | by destruct Hsome].
    + intros Hle.
      destruct (shiftLoop_spec shiftItem hvOffsets (length (m_data s)) 0 (m_data s))
        as (data' & -> & _); [lia..|]. by eexists.
  - intros s' Hrun.
    destruct (decide (length (m_data s) ≤ length hvOffsets)) as [Hle|Hgt].
    + destruct (shiftLoop_spec shiftItem hvOffsets (length (m_data s)) 0 (m_data s))
        as (data' & Hloop & Hlen & Hget); [lia..|].
      rewrite Hloop in Hrun. cbn in Hrun. injection Hrun as <-. cbn.
      split_and!; [done..|]. intros i it dx dy Hit Hoff.
      rewrite Hget, bool_decide_true, Hit, Hoff; [done|].
      apply lookup_lt_Some in Hit. lia.
    + exfalso.
      destruct (shiftLoop_needs_offsets shiftItem hvOffsets (length (m_data s)) 0 (m_data s))
        as [Hz|?]; [|lia..].
      destruct (foldl_opt _ _ _); [by eexists | done].
Qed.

End ManagerProofs.

(** * What holds in every state of the manager *)

Section InvariantProofs.
Context {float Array2Df QImage ResponseCurve WeightFunction FusionOperator : Type}.
Context `{!FloatOps float} `{!Array2DOps float Array2Df}.
Context `{!AutoAntighosting float Array2Df QImage}.
Context `{!Fusion float Array2Df ResponseCurve WeightFunction FusionOperator}.

Abbreviation Item := (HdrCreationItem float Array2Df).
Abbreviation Manager :=
  (@HdrCreationManager float Array2Df QImage ResponseCurve WeightFunction FusionOperator).

Implicit Types (s : Manager).

Lemma clearing_loops_wf n (l1 l2 : list nat) (g : Grid) :
  grid_wf n g →
  grid_wf n (foldl (λ g i, foldl (λ g j, grid_set i j false g) g l2) g l1).
Proof.
  revert g. induction l1 as [|i l1 IH]; intros g Hwf; [done|].
  cbn [foldl]. apply IH. clear IH. revert g Hwf.
  induction l2 as [|j l2 IH]; intros g Hwf; [done|].
  cbn [foldl]. apply IH. by apply grid_set_wf.
Qed.

Lemma storeOK_nil : storeOK (@nil Item).
Proof. split; [by intros it ?%elem_of_nil | by intros a c ?%elem_of_nil]. Qed.

Lemma storeOK_sublist (l k : list Item) : sublist k l → storeOK l → storeOK k.
Proof.
  intros Hsub [Hvalid Hsize]. split.
  - intros it Hin. apply Hvalid. by eapply elem_of_sublist.
  - intros a c Ha Hc. apply Hsize; by eapply elem_of_sublist.
Qed.

Lemma loadFiles_patches blank fs s : m_patches (loadFiles blank fs s) = m_patches s.
Proof.
  unfold loadFiles. cbn. revert s. induction fs as [|p fs IH]; intros s; [done|].
  cbn. rewrite IH. by destruct (find _ _).
Qed.

Lemma refreshEVOffset_patches s : m_patches (refreshEVOffset s) = m_patches s.
Proof.
  unfold refreshEVOffset. destruct (m_data s) as [|it l]; [done|].
  destruct (_ <$> filter _ (it :: l)) as [|e [|e' evs]]; done.
Qed.

Lemma loadResponseCurve_patches s s1 log1 :
  loadResponseCurve s = Some (s1, log1) → m_patches s1 = m_patches s.
Proof.
  unfold loadResponseCurve. destruct (m_isLoadResponseCurve s).
  - destruct (m_tmpdata s !! 0) as [it0|]; [|done]. cbn.
    by destruct (response_readFromFile _ _) as [r' [what|]]; intros [= <- <-].
  - by intros [= <- <-].
Qed.

(** What [loadFilesDone] does to the patch array and to the store. *)
Lemma loadFilesDone_keeps isCanceled s s' log :
  loadFilesDone isCanceled s = Some (s', log) →
  m_patches s' = m_patches s ∧ (storeOK (m_data s) → storeOK (m_data s')).
Proof.
  unfold loadFilesDone. destruct isCanceled; [by intros [= <- <-]|].
  destruct (loadResponseCurve s) as [[s1 log1]|] eqn:Hr; [|done].
  cbn [mbind option_bind]. cbv beta iota.
  pose proof (loadResponseCurve_patches _ _ _ Hr) as Hp.
  apply loadResponseCurve_Some in Hr as (Hd1 & Ht1 & _ & _).
  destruct (framesHaveSameSize _) as [[]|] eqn:Hsame; [| |done];
    cbn [mbind option_bind negb]; cbv beta iota; intros [= <- <-].
  - split; [by rewrite refreshEVOffset_patches|]. intros [Hvalid _]. split.
    + rewrite refreshEVOffset_data. cbn [m_data set_tmpdata set_data]. rewrite Hd1.
      intros it [Hin|Hin]%elem_of_app; [by apply Hvalid|].
      by apply list_elem_of_filter in Hin as [? _].
    + by apply (framesHaveSameSize_spec _ true).
  - split; [cbn; by rewrite refreshEVOffset_patches|]. intros _. apply storeOK_nil.
Qed.

Lemma createHdr_keeps s s1 log ghosted :
  createHdr s = Some (s1, log, ghosted) →
  m_patches s1 = m_patches s ∧ m_data s1 = m_data s.
Proof.
  unfold createHdr. destruct (m_data s !! 0) as [it0|]; [|done]. cbn.
  destruct (computeFusion _ _ _ _) as [outputFrame r]. by intros [= <- _ _].
Qed.

(** The state [doAntiGhosting] leaves is the one after [createHdr], or
    that state after [reset]. *)
Lemma doAntiGhosting_state (patches : Grid) (h0 : Z) (manualAg : bool)
    (canceled : nat → bool) s s' log result :
  doAntiGhosting patches h0 manualAg canceled s = Some (s', log, result) →
  ∃ s1 logHdr ghosted,
    createHdr s = Some (s1, logHdr, ghosted) ∧ (s' = s1 ∨ s' = (reset s1).1).
Proof.
  unfold doAntiGhosting.
  destruct (m_data s !! 0) as [it0|]; [|done]. cbn [mbind option_bind].
  destruct (lookupZ (m_data s) h0) as [good|]; [|done]. cbn [mbind option_bind].
  destruct (createHdr s) as [[[s1 logHdr] ghosted]|]; [|done].
  cbn [mbind option_bind]. cbv beta iota.
  destruct (canceled 0).
  { intros [= <- _ _]. eexists _, _, _. split; [done | by left]. }
  destruct (reset s1) as [s2 logReset] eqn:Hreset.
  destruct (selectBlend _ _ _ _ _) as [blend|]; [|done]. cbn [mbind option_bind].
  destruct (channelStages _ _ _ _ _) as [[R G] B]. cbv beta iota zeta.
  intros Hrun. exists s1, logHdr, ghosted. split; [done|]. right. rewrite Hreset. cbn [fst].
  revert Hrun.
  destruct (canceled 1); [by intros [= <- _ _]|].
  destruct (canceled 2); [by intros [= <- _ _]|].
  destruct (canceled 3); [by intros [= <- _ _]|].
  destruct (canceled 4); [by intros [= <- _ _]|].
  destruct (canceled 5); [by intros [= <- _ _]|].
  destruct (canceled 6); [by intros [= <- _ _]|].
  destruct (clampToZero _ _ _ _) as [[U1 U2] U3].
  destruct (shadesOfGrayAWB _ _ _) as [[V1 V2] V3].
  by intros [= <- _ _].
Qed.

(** X23. In every state that a manager reaches from its constructor by
    [loadFiles], the loading of the pending items, [loadFilesDone],
    [removeFile], [clearFiles], [reset], [computePatches], [setPatches],
    [createHdr] and [doAntiGhosting], in any order and whatever the files
    hold: the patch array has [agGridSize] rows of [agGridSize] cells,
    every stored item is valid, and all stored frames have one width and
    one height. *)
Theorem reachable_states_are_sound s :
  reachable s →
  grid_wf agGridSize (m_patches s)
  ∧ (∀ it : Item, it ∈ m_data s → isValid (payload it) = true)
  ∧ ∀ a c : Item, a ∈ m_data s → c ∈ m_data s →
      getWidth (frame (payload a)) = getWidth (frame (payload c))
      ∧ getHeight (frame (payload a)) = getHeight (frame (payload c)).
Proof.
  intros Hreach.
  enough (grid_wf agGridSize (m_patches s) ∧ storeOK (m_data s)) as [? [? ?]] by done.
  induction Hreach as
    [ r0 w0 op0 g0 h0 Hwf
    | blank fs s _ [IHp IHd]
    | decode s _ [IHp IHd]
    | c s s' log _ [IHp IHd] Hrun
    | idx s s' _ [IHp IHd] Hrun
    | s _ [IHp IHd]
    | s _ [IHp IHd]
    | t HV s s' r _ [IHp IHd] Hrun
    | p s Hwf _ [IHp IHd]
    | s s' log f _ [IHp IHd] Hrun
    | p h0 m c s s' log f _ [IHp IHd] Hrun ].
  - split; [|apply storeOK_nil]. cbn. by apply clearing_loops_wf.
  - by rewrite loadFiles_patches, loadFiles_data.
  - by rewrite mapLoadFile_data.
  - destruct (loadFilesDone_keeps _ _ _ _ Hrun) as [-> Hd]. auto.
  - revert Hrun. unfold removeFile. case_bool_decide; [|done]. intros [= <-].
    rewrite refreshEVOffset_patches, refreshEVOffset_data. cbn. split; [done|].
    eapply storeOK_sublist; [|done]. apply sublist_delete.
  - split; [done|]. apply storeOK_nil.
  - split; [done|]. apply storeOK_nil.
  - destruct (computePatches_Some t HV s s' r IHp Hrun) as (_ & _ & _ & _ & -> & Hwf & _).
    done.
  - done.
  - destruct (createHdr_keeps _ _ _ _ Hrun) as [-> ->]. done.
  - destruct (doAntiGhosting_state _ _ _ _ _ _ _ _ Hrun)
      as (s1 & logHdr & ghosted & Hhdr & [->| ->]);
      destruct (createHdr_keeps _ _ _ _ Hhdr) as [Hp Hd].
    + by rewrite Hp, Hd.
    + cbn. rewrite Hp. split; [done|]. apply storeOK_nil.
Qed.

End InvariantProofs.

(** * The EV offset in the states of the manager *)

Section OffsetProofs.
Context {float Array2Df QImage ResponseCurve WeightFunction FusionOperator : Type}.
Context `{!FloatOps float} `{!Array2DOps float Array2Df}.
Context `{!AutoAntighosting float Array2Df QImage}.
Context `{!Fusion float Array2Df ResponseCurve WeightFunction FusionOperator}.

Abbreviation Manager :=
  (@HdrCreationManager float Array2Df QImage ResponseCurve WeightFunction FusionOperator).

Implicit Types (s : Manager).






End OffsetProofs.

(** * Properties of the channel container *)

Section PfsFrameProofs.
Import PfsFrame.
Context {Channel : Type} `{!ChannelOps Channel}.
Implicit Types (f : Frame Channel) (name : string).

Lemma findChannel_Some name f it ch :
  findChannel name f = Some (it, ch) →
  m_channels f !! it = Some ch ∧ getName ch = name.
Proof. unfold findChannel. intros (? & ? & _)%list_find_Some. done. Qed.

Lemma findChannel_None name f :
  findChannel name f = None ↔ name ∉ channelNames f.
Proof.
  unfold findChannel, channelNames. rewrite list_find_None, Forall_forall. split.
  - intros Hall (ch & -> & Hin)%list_elem_of_fmap. by apply (Hall ch).
  - intros Hnot ch Hin <-. apply Hnot. by apply list_elem_of_fmap_2.
Qed.

Lemma getChannel_None name f : getChannel name f = None ↔ name ∉ channelNames f.
Proof.
  rewrite <- findChannel_None. unfold getChannel.
  by destruct (findChannel name f) as [[? ?]|].
Qed.

Lemma getChannel_Some name f ch :
  getChannel name f = Some ch → ch ∈ m_channels f ∧ getName ch = name.
Proof.
  unfold getChannel. destruct (findChannel name f) as [[it ch']|] eqn:Hf; [|done].
  intros [= ->]. apply findChannel_Some in Hf as [Hl Hn].
  split; [by eapply list_elem_of_lookup_2 | done].
Qed.

Lemma getChannel_snd name f : getChannel name f = snd <$> findChannel name f.
Proof. unfold getChannel. by destruct (findChannel name f) as [[? ?]|]. Qed.

Lemma find_snd_skip (P : Channel → Prop) `{∀ c, Decision (P c)} (l1 l2 : list Channel) ch :
  ¬ P ch →
  snd <$> list_find P (l1 ++ l2) = snd <$> list_find P (l1 ++ ch :: l2).
Proof.
  intros Hch. induction l1 as [|c l1 IH]; cbn.
  - rewrite decide_False by done. by destruct (list_find P l2) as [[? ?]|].
  - case_decide; [done|].
    destruct (list_find P (l1 ++ l2)) as [[? ?]|],
             (list_find P (l1 ++ ch :: l2)) as [[? ?]|]; cbn in *; congruence.
Qed.

Lemma findChannel_snoc name f ch :
  findChannel name f = None → getName ch = name →
  list_find (λ channel, getName channel = name) (m_channels f ++ [ch])
  = Some (length (m_channels f), ch).
Proof.
  intros Hnone Hname. unfold findChannel in Hnone.
  rewrite list_find_app_r by done. cbn. by rewrite decide_True.
Qed.

Lemma findChannel_snoc_ne name name' f ch :
  getName ch ≠ name' →
  list_find (λ channel, getName channel = name') (m_channels f ++ [ch])
  = findChannel name' f.
Proof.
  intros Hne. unfold findChannel.
  destruct (list_find _ (m_channels f)) as [[it c]|] eqn:Hf.
  - by apply list_find_app_l.
  - rewrite list_find_app_r by done. cbn. by rewrite decide_False.
Qed.

Lemma getChannel_createChannel_eq name f :
  getChannel name (createChannel name f).1 = Some (createChannel name f).2
  ∧ getName (createChannel name f).2 = name.
Proof.
  unfold createChannel.
  destruct (findChannel name f) as [[it ch]|] eqn:Hf; cbn [fst snd].
  - split; [|by apply findChannel_Some in Hf as [_ ?]].
    unfold getChannel. by rewrite Hf.
  - split; [|apply getName_new].
    unfold getChannel, findChannel. cbn.
    by rewrite (findChannel_snoc name f) by (done || apply getName_new).
Qed.

Lemma getChannel_createChannel_ne name name' f :
  name' ≠ name → getChannel name' (createChannel name f).1 = getChannel name' f.
Proof.
  intros Hne. unfold createChannel.
  destruct (findChannel name f) as [[it ch]|] eqn:Hf; cbn [fst]; [done|].
  unfold getChannel at 1, findChannel at 1. cbn.
  rewrite (findChannel_snoc_ne name name'); [done|].
  rewrite getName_new. congruence.
Qed.

(** X1. After [createChannel name], [getChannel name] hands out the very
    channel [createChannel] returned, and that channel carries the name;
    the channel of any other name is found as before. *)
Theorem createChannel_then_getChannel name name' f :
  getChannel name (createChannel name f).1 = Some (createChannel name f).2
  ∧ getName (createChannel name f).2 = name
  ∧ (name' ≠ name →
     getChannel name' (createChannel name f).1 = getChannel name' f).
Proof.
  destruct (getChannel_createChannel_eq name f) as [Hget Hname].
  split_and!; [done..|]. apply getChannel_createChannel_ne.
Qed.

(** X2. [createChannel] never makes a second channel of a name: on a name
    that is there it returns the existing channel and leaves the frame as
    it is, so creating twice is creating once; on a new name it appends
    exactly one channel and keeps the others in place. *)
Theorem createChannel_no_duplicate name f :
  createChannel name (createChannel name f).1 = createChannel name f
  ∧ (name ∈ channelNames f → (createChannel name f).1 = f)
  ∧ (name ∉ channelNames f →
     m_channels (createChannel name f).1
     = m_channels f ++ [Channel_new (m_width f) (m_height f) name]).
Proof.
  split_and!.
  - unfold createChannel at 2 3.
    destruct (findChannel name f) as [[it ch]|] eqn:Hf; cbn [fst snd].
    + unfold createChannel. by rewrite Hf.
    + unfold createChannel, findChannel. cbn.
      by rewrite (findChannel_snoc name f) by (done || apply getName_new).
  - intros Hin. unfold createChannel.
    destruct (findChannel name f) as [[it ch]|] eqn:Hf; [done|].
    by apply findChannel_None in Hf.
  - intros Hnot. apply findChannel_None in Hnot. unfold createChannel. by rewrite Hnot.
Qed.

Lemma channelNames_createChannel name f :
  channelNames (createChannel name f).1
  = if decide (name ∈ channelNames f) then channelNames f else channelNames f ++ [name].
Proof.
  unfold createChannel. destruct (findChannel name f) as [[it ch]|] eqn:Hf; cbn [fst].
  - rewrite decide_True; [done|]. apply findChannel_Some in Hf as [Hl <-].
    apply list_elem_of_fmap_2. by eapply list_elem_of_lookup_2.
  - apply findChannel_None in Hf. rewrite decide_False by done.
    unfold channelNames. cbn. rewrite fmap_app. cbn. by rewrite getName_new.
Qed.

Lemma channelNames_removeChannel name f :
  channelNames (removeChannel name f)
  = match findChannel name f with
    | Some (it, _) => delete it (channelNames f)
    | None => channelNames f
    end.
Proof.
  unfold removeChannel. destruct (findChannel name f) as [[it ch]|]; [|done].
  unfold channelNames. cbn. by rewrite list_fmap_delete.
Qed.

(** X3. The names of the channels of a frame are pairwise distinct: a new
    frame has none, and [createChannel], [createXYZChannels] and
    [removeChannel] keep them distinct. *)
Theorem channel_names_stay_distinct name f :
  NoDup (channelNames (Frame_new (m_width f) (m_height f)))
  ∧ (NoDup (channelNames f) →
     NoDup (channelNames (createChannel name f).1)
     ∧ NoDup (channelNames (createXYZChannels f).1)
     ∧ NoDup (channelNames (removeChannel name f))).
Proof.
  split; [constructor|]. intros Hnd.
  assert (∀ n g, NoDup (channelNames g) → NoDup (channelNames (createChannel n g).1))
    as Hcreate.
  { intros n g Hg. rewrite channelNames_createChannel. case_decide; [done|].
    apply NoDup_app. split_and!; [done| |apply NoDup_singleton].
    intros x Hx ->%list_elem_of_singleton. done. }
  split_and!.
  - by apply Hcreate.
  - unfold createXYZChannels.
    pose proof (Hcreate "X"%string f Hnd) as H1.
    destruct (createChannel "X" f) as [f1 X]. cbn [fst] in H1.
    pose proof (Hcreate "Y"%string f1 H1) as H2.
    destruct (createChannel "Y" f1) as [f2 Y]. cbn [fst] in H2.
    pose proof (Hcreate "Z"%string f2 H2) as H3.
    by destruct (createChannel "Z" f2) as [f3 Z].
  - rewrite channelNames_removeChannel.
    destruct (findChannel name f) as [[it ch]|]; [|done].
    eapply sublist_NoDup; [done|apply sublist_delete].
Qed.

(** X4. [removeChannel name] on a frame with distinct names leaves no
    channel of that name and every other channel where [getChannel] finds
    it; on a frame without that name it changes nothing; and it undoes a
    [createChannel] of a new name. *)
Theorem removeChannel_removes name name' f :
  (NoDup (channelNames f) → getChannel name (removeChannel name f) = None)
  ∧ (name' ≠ name → getChannel name' (removeChannel name f) = getChannel name' f)
  ∧ (name ∉ channelNames f → removeChannel name f = f)
  ∧ (name ∉ channelNames f → removeChannel name (createChannel name f).1 = f).
Proof.
  split_and!.
  - intros Hnd. apply getChannel_None. rewrite channelNames_removeChannel.
    destruct (findChannel name f) as [[it ch]|] eqn:Hf; [|by apply findChannel_None].
    apply findChannel_Some in Hf as [Hl Hn].
    assert (channelNames f !! it = Some name) as Hit.
    { unfold channelNames. rewrite list_lookup_fmap, Hl. cbn. by rewrite Hn. }
    intros (j & Hj)%list_elem_of_lookup_1.
    destruct (decide (j < it)) as [Hlt|Hge].
    + rewrite list_lookup_delete_lt in Hj by done.
      pose proof (NoDup_lookup _ _ _ _ Hnd Hj Hit). lia.
    + rewrite list_lookup_delete_ge in Hj by lia.
      pose proof (NoDup_lookup _ _ _ _ Hnd Hj Hit). lia.
  - intros Hne. unfold removeChannel.
    destruct (findChannel name f) as [[it ch]|] eqn:Hf; [|done].
    apply findChannel_Some in Hf as [Hl Hn].
    rewrite !getChannel_snd. unfold findChannel. cbn.
    rewrite <- (take_drop_middle _ _ _ Hl) at 2. rewrite delete_take_drop.
    apply find_snd_skip. congruence.
  - intros Hnot. apply findChannel_None in Hnot. unfold removeChannel. by rewrite Hnot.
  - intros Hnot. apply findChannel_None in Hnot. unfold createChannel. rewrite Hnot.
    cbn [fst]. unfold removeChannel, findChannel. cbn.
    rewrite (findChannel_snoc name f) by (done || apply getName_new). cbn.
    destruct f as [w h chs]. cbn. f_equal.
    rewrite delete_take_drop, take_app_length, drop_ge by (rewrite length_app; cbn; lia).
    by rewrite app_nil_r.
Qed.

Lemma createChannel_prefix name f :
  m_channels f `prefix_of` m_channels (createChannel name f).1.
Proof.
  unfold createChannel. destruct (findChannel name f) as [[? ?]|]; cbn; [reflexivity|].
  by apply prefix_app_r.
Qed.

(** X5. [getXYZChannels] hands out either the three channels named X, Y
    and Z, each the one [getChannel] finds, or three null pointers, which
    happens exactly when one of the three names is missing; it never hands
    out some of them. *)
Theorem getXYZChannels_all_or_nothing f :
  match getXYZChannels f with
  | (Some X, Some Y, Some Z) =>
      getChannel "X" f = Some X ∧ getChannel "Y" f = Some Y ∧ getChannel "Z" f = Some Z
  | (None, None, None) =>
      "X"%string ∉ channelNames f ∨ "Y"%string ∉ channelNames f
      ∨ "Z"%string ∉ channelNames f
  | _ => False
  end.
Proof.
  unfold getXYZChannels, getChannel.
  destruct (findChannel "X" f) as [[? X]|] eqn:HX;
    [|left; by apply findChannel_None].
  destruct (findChannel "Y" f) as [[? Y]|] eqn:HY;
    [|right; left; by apply findChannel_None].
  destruct (findChannel "Z" f) as [[? Z]|] eqn:HZ;
    [done|right; right; by apply findChannel_None].
Qed.

(** X6. After [createXYZChannels], [getXYZChannels] hands out exactly the
    three channels that [createXYZChannels] returned, and they are named
    X, Y and Z; channels the frame had already are reused. *)
Theorem createXYZChannels_then_getXYZChannels f :
  let '(f', (X, Y, Z)) := createXYZChannels f in
  getXYZChannels f' = (Some X, Some Y, Some Z)
  ∧ getName X = "X"%string ∧ getName Y = "Y"%string ∧ getName Z = "Z"%string
  ∧ m_channels f `prefix_of` m_channels f'.
Proof.
  unfold createXYZChannels.
  destruct (getChannel_createChannel_eq "X" f) as [HX HnX].
  pose proof (createChannel_prefix "X" f) as P1.
  destruct (createChannel "X" f) as [f1 X]. cbn [fst snd] in *.
  destruct (getChannel_createChannel_eq "Y" f1) as [HY HnY].
  pose proof (getChannel_createChannel_ne "Y" "X" f1 ltac:(done)) as HX2.
  pose proof (createChannel_prefix "Y" f1) as P2.
  destruct (createChannel "Y" f1) as [f2 Y]. cbn [fst snd] in *.
  destruct (getChannel_createChannel_eq "Z" f2) as [HZ HnZ].
  pose proof (getChannel_createChannel_ne "Z" "X" f2 ltac:(done)) as HX3.
  pose proof (getChannel_createChannel_ne "Z" "Y" f2 ltac:(done)) as HY3.
  pose proof (createChannel_prefix "Z" f2) as P3.
  destruct (createChannel "Z" f2) as [f3 Z]. cbn [fst snd] in *.
  split_and!; [|done..|by etrans; [|etrans]].
  rewrite HX2, HX in HX3. rewrite HY in HY3.
  unfold getXYZChannels. rewrite getChannel_snd in HX3, HY3, HZ.
  destruct (findChannel "X" f3) as [[? ?]|]; [|done].
  destruct (findChannel "Y" f3) as [[? ?]|]; [|done].
  destruct (findChannel "Z" f3) as [[? ?]|]; [|done].
  cbn in *. congruence.
Qed.

End PfsFrameProofs.

(** * Properties of [copyArray] *)

Section Array2DProofs.
Import PfsArray2D.
Context {float : Type}.
Implicit Types (fv tv : list float).

Lemma copyColumns_spec fv offset IN_W OUT_W r n : ∀ a tv,
  a + n ≤ OUT_W →
  offset + (r * IN_W + OUT_W) ≤ length fv →
  r * OUT_W + OUT_W ≤ length tv →
  ∃ tv', foldl_opt (λ tv c,
                      v ← fv !! (offset + (r * IN_W + c));
                      if r * OUT_W + c <? length tv
                      then Some (<[r * OUT_W + c := v]> tv) else None)
                   tv (seq a n) = Some tv'
    ∧ length tv' = length tv
    ∧ ∀ r' c', c' < OUT_W →
        tv' !! (r' * OUT_W + c')
        = if bool_decide (r' = r ∧ a ≤ c' < a + n)
          then fv !! (offset + (r * IN_W + c')) else tv !! (r' * OUT_W + c').
Proof.
  induction n as [|n IH]; intros a tv Hle Hread Hwrite.
  { exists tv. split_and!; [done..|]. intros r' c' Hc'.
    rewrite bool_decide_false; [done | lia]. }
  cbn [seq foldl_opt].
  destruct (lookup_lt_is_Some_2 fv (offset + (r * IN_W + a))) as [v Hv]; [lia|].
  rewrite Hv. cbn [mbind option_bind].
  destruct (Nat.ltb_spec (r * OUT_W + a) (length tv)) as [_|?]; [|lia].
  destruct (IH (S a) (<[r * OUT_W + a := v]> tv)) as (tv' & -> & Hlen & Hget);
    [lia | done | by rewrite length_insert |].
  exists tv'. split_and!; [done|by rewrite Hlen, length_insert|]. intros r' c' Hc'.
  rewrite Hget by done.
  destruct (decide (r' = r ∧ c' = a)) as [[-> ->]|Hne].
  - rewrite bool_decide_false by lia. rewrite list_lookup_insert_eq by lia.
    by rewrite bool_decide_true by lia.
  - rewrite list_lookup_insert_ne.
    2:{ intros Heq. apply Hne.
        destruct (Nat.lt_trichotomy r' r) as [?|[->|?]]; [nia | lia | nia]. }
    case_bool_decide; [by rewrite bool_decide_true by lia|].
    by rewrite bool_decide_false by lia.
Qed.

Lemma copyRows_spec fv offset IN_W OUT_W OUT_H n : ∀ a tv,
  a + n ≤ OUT_H →
  offset + ((OUT_H - 1) * IN_W + OUT_W) ≤ length fv →
  length tv = OUT_W * OUT_H →
  ∃ tv', foldl_opt (copyRow fv offset IN_W OUT_W) tv (seq a n) = Some tv'
    ∧ length tv' = length tv
    ∧ ∀ r c, c < OUT_W →
        tv' !! (r * OUT_W + c)
        = if bool_decide (a ≤ r < a + n)
          then fv !! (offset + (r * IN_W + c)) else tv !! (r * OUT_W + c).
Proof.
  induction n as [|n IH]; intros a tv Hle Hread Hlen.
  { exists tv. split_and!; [done..|]. intros r c Hc.
    rewrite bool_decide_false; [done | lia]. }
  cbn [seq foldl_opt]. unfold copyRow at 1.
  destruct (copyColumns_spec fv offset IN_W OUT_W a OUT_W 0 tv)
    as (tv1 & -> & Hlen1 & Hget1); [lia | nia | nia |].
  destruct (IH (S a) tv1) as (tv' & -> & Hlen' & Hget); [lia | done | congruence |].
  exists tv'. split_and!; [done|congruence|]. intros r c Hc.
  rewrite Hget, Hget1 by done.
  destruct (decide (r = a)) as [->|Hne].
  - rewrite bool_decide_false by lia. rewrite bool_decide_true by lia.
    by rewrite bool_decide_true by lia.
  - rewrite (bool_decide_false (r = a ∧ _)) by lia.
    case_bool_decide; [by rewrite bool_decide_true by lia|].
    by rewrite bool_decide_false by lia.
Qed.

(** What [copyArray] computes whenever its assertions hold and its reads
    stay inside the buffer of [from]: it goes by the position in the
    buffer. *)
Lemma copyArray_flat (from to : Array2D float) (x_ul y_ul x_br y_br : Z) :
  Array2D_wf from → Array2D_wf to →
  (0 ≤ x_ul)%Z → (0 ≤ y_ul)%Z → m_rows to ≤ m_rows from →
  (x_br ≤ Z.of_nat (m_cols from))%Z → (y_br ≤ Z.of_nat (m_rows from))%Z →
  (0 < m_rows to → 0 < m_cols to →
   m_cols from * Z.to_nat y_ul + Z.to_nat x_ul
   + ((m_rows to - 1) * m_cols from + m_cols to) ≤ m_cols from * m_rows from) →
  ∃ to', copyArray from to x_ul y_ul x_br y_br = Some to'
    ∧ m_cols to' = m_cols to ∧ m_rows to' = m_rows to ∧ Array2D_wf to'
    ∧ ∀ c r, c < m_cols to → r < m_rows to →
        element to' c r
        = m_data from !! ((Z.to_nat y_ul + r) * m_cols from + (Z.to_nat x_ul + c)).
Proof.
  unfold Array2D_wf. intros Hwf Hwt Hx Hy Hrows Hxb Hyb Hread. unfold copyArray.
  assert (copyArray_asserts from to x_ul y_ul x_br y_br = true) as ->.
  { unfold copyArray_asserts, getCols, getRows.
    rewrite !andb_true_iff, !Nat.leb_le, !Z.leb_le. lia. }
  unfold getCols, getRows, getRawData.
  destruct (decide (m_rows to = 0 ∨ m_cols to = 0)) as [Hz|Hnz].
  { assert (∃ tv', foldl_opt (copyRow (m_data from)
                (Z.to_nat (Z.of_nat (m_cols from) * y_ul + x_ul))
                (m_cols from) (m_cols to)) (m_data to) (seq 0 (m_rows to)) = Some tv'
              ∧ length tv' = length (m_data to)) as (tv' & -> & Hlen).
    { destruct Hz as [->| ->]; [by eexists|].
      generalize (m_data to) as tv. induction (seq 0 (m_rows to)) as [|r rs IH]; intros tv.
      - by eexists.
      - cbn. apply IH. }
    cbn. eexists. split; [done|]. cbn. split_and!; [done..|congruence|]. intros; lia. }
  destruct (copyRows_spec (m_data from) (Z.to_nat (Z.of_nat (m_cols from) * y_ul + x_ul))
              (m_cols from) (m_cols to) (m_rows to) (m_rows to) 0 (m_data to))
    as (tv' & -> & Hlen & Hget); [lia | | done |].
  { rewrite Hwf. etrans; [|apply Hread; lia]. nia. }
  cbn. eexists. split; [done|]. cbn. split_and!; [done..|congruence|].
  intros c r Hc Hr. unfold element. cbn. rewrite Hget by done.
  rewrite bool_decide_true by lia. f_equal. nia.
Qed.

(** What [copyArray] computes when the rectangle lies inside [from]. *)
Lemma copyArray_spec (from to : Array2D float) (x_ul y_ul x_br y_br : Z) :
  Array2D_wf from → Array2D_wf to →
  (0 ≤ x_ul)%Z → (0 ≤ y_ul)%Z →
  (x_ul + Z.of_nat (m_cols to) ≤ Z.of_nat (m_cols from))%Z →
  (y_ul + Z.of_nat (m_rows to) ≤ Z.of_nat (m_rows from))%Z →
  (x_br ≤ Z.of_nat (m_cols from))%Z → (y_br ≤ Z.of_nat (m_rows from))%Z →
  ∃ to', copyArray from to x_ul y_ul x_br y_br = Some to'
    ∧ m_cols to' = m_cols to ∧ m_rows to' = m_rows to ∧ Array2D_wf to'
    ∧ ∀ c r, c < m_cols to → r < m_rows to →
        element to' c r = element from (Z.to_nat x_ul + c) (Z.to_nat y_ul + r).
Proof.
  intros Hwf Hwt Hx Hy Hxw Hyh Hxb Hyb.
  apply copyArray_flat; [done..|lia|done|done|]. intros. nia.
Qed.

(** X10. [copyArray] with a rectangle that lies inside [from] fills [to]
    with that rectangle: the element in column [c] of row [r] of [to]
    becomes the element in column [x_ul + c] of row [y_ul + r] of [from];
    the size of [to] stays, and nothing of its old contents is left. *)
Theorem copyArray_copies_rectangle (from to : Array2D float) (x_ul y_ul x_br y_br : Z) :
  Array2D_wf from → Array2D_wf to →
  (0 ≤ x_ul)%Z → (0 ≤ y_ul)%Z →
  (x_ul + Z.of_nat (m_cols to) ≤ Z.of_nat (m_cols from))%Z →
  (y_ul + Z.of_nat (m_rows to) ≤ Z.of_nat (m_rows from))%Z →
  (x_br ≤ Z.of_nat (m_cols from))%Z → (y_br ≤ Z.of_nat (m_rows from))%Z →
  ∃ to', copyArray from to x_ul y_ul x_br y_br = Some to'
    ∧ m_cols to' = m_cols to ∧ m_rows to' = m_rows to ∧ Array2D_wf to'
    ∧ ∀ c r, c < m_cols to → r < m_rows to →
        element to' c r = element from (Z.to_nat x_ul + c) (Z.to_nat y_ul + r).
Proof. apply copyArray_spec. Qed.

(** X11. Copying the whole of [from] into an array of the same size makes
    that array equal to [from]. *)
Theorem copyArray_whole (from to : Array2D float) (x_br y_br : Z) :
  Array2D_wf from → Array2D_wf to →
  m_cols to = m_cols from → m_rows to = m_rows from →
  (x_br ≤ Z.of_nat (m_cols from))%Z → (y_br ≤ Z.of_nat (m_rows from))%Z →
  copyArray from to 0 0 x_br y_br = Some from.
Proof.
  intros Hwf Hwt Hc Hr Hxb Hyb.
  destruct (copyArray_spec from to 0 0 x_br y_br) as (to' & -> & Hc' & Hr' & Hwt' & Hel);
    [done..|lia|lia|done|done|].
  f_equal. destruct from as [w h fv], to' as [w' h' tv']. cbn in *. subst.
  unfold Array2D_wf, element in *. cbn in *. f_equal.
  set (w := m_cols to) in *. set (h := m_rows to) in *.
  apply (list_eq_same_length _ _ (w * h)); [done..|]. intros k a b Hk Ha Hb.
  assert (0 < w) as Hw by nia.
  pose proof (Nat.div_mod_eq k w) as Hdm.
  pose proof (Nat.mod_upper_bound k w ltac:(lia)) as Hm.
  assert (k / w < h) as Hq by (apply Nat.Div0.div_lt_upper_bound; lia).
  specialize (Hel (k mod w) (k / w) Hm Hq).
  change (Z.to_nat 0) with 0 in Hel. rewrite !Nat.add_0_l in Hel.
  replace (k / w * w + k mod w) with k in Hel by lia. congruence.
Qed.

(** X12. The width of [to] is not among the assertions.  When the
    rectangle sticks out over the right edge of [from] while the reads
    stay inside its buffer, the call succeeds, and the columns beyond the
    edge are filled from the start of the next row of [from]. *)
Theorem copyArray_wraps_past_right_edge (from to : Array2D float)
    (x_ul y_ul x_br y_br : Z) (c r : nat) :
  Array2D_wf from → Array2D_wf to →
  (0 ≤ x_ul)%Z → (0 ≤ y_ul)%Z → m_rows to ≤ m_rows from →
  (x_br ≤ Z.of_nat (m_cols from))%Z → (y_br ≤ Z.of_nat (m_rows from))%Z →
  m_cols from * Z.to_nat y_ul + Z.to_nat x_ul
  + ((m_rows to - 1) * m_cols from + m_cols to) ≤ m_cols from * m_rows from →
  c < m_cols to → r < m_rows to →
  m_cols from ≤ Z.to_nat x_ul + c < 2 * m_cols from →
  ∃ to', copyArray from to x_ul y_ul x_br y_br = Some to'
    ∧ element to' c r
      = element from (Z.to_nat x_ul + c - m_cols from) (Z.to_nat y_ul + r + 1).
Proof.
  intros Hwf Hwt Hx Hy Hrows Hxb Hyb Hread Hc Hr Hout.
  destruct (copyArray_flat from to x_ul y_ul x_br y_br) as (to' & Hrun & _ & _ & _ & Hel);
    [done..|].
  exists to'. split; [done|]. rewrite Hel by done. unfold element. f_equal. nia.
Qed.

End Array2DProofs.

(** * Properties of [shiftQImage] *)

Section PreviewProofs.
Import Preview.

Lemma shiftPixels_spec w (inp : list Z) dx n : ∀ a (outp : list Z),
  length inp = w → length outp = w → a + n ≤ w →
  ∃ outp', shiftPixels w inp dx (seq a n) outp = Some outp'
    ∧ length outp' = w
    ∧ ∀ x, x < w →
        outp' !! x
        = if bool_decide (Z.of_nat a ≤ Z.of_nat x - dx < Z.of_nat a + Z.of_nat n)%Z
          then inp !! Z.to_nat (Z.of_nat x - dx) else outp !! x.
Proof.
  induction n as [|n IH]; intros a outp Hin Hout Hle.
  { exists outp. split_and!; [done..|]. intros x Hx.
    rewrite bool_decide_false; [done | lia]. }
  cbn [seq shiftPixels].
  destruct (Z.geb_spec (Z.of_nat a + dx) (Z.of_nat w)) as [Hbrk|Hnbrk].
  { exists outp. split_and!; [done..|]. intros x Hx.
    rewrite bool_decide_false; [done | lia]. }
  destruct (Z.geb_spec (Z.of_nat a + dx) 0) as [Hpos|Hneg].
  - destruct (lookup_lt_is_Some_2 inp a) as [p Hp]; [lia|]. rewrite Hp. cbn.
    destruct (IH (S a) (<[Z.to_nat (Z.of_nat a + dx) := p]> outp)) as (outp' & -> & Hlen & Hget);
      [done | by rewrite length_insert | lia |].
    exists outp'. split_and!; [done..|]. intros x Hx. rewrite Hget by done.
    destruct (decide (x = Z.to_nat (Z.of_nat a + dx))) as [->|Hne].
    + rewrite bool_decide_false by lia. rewrite list_lookup_insert_eq by lia.
      rewrite bool_decide_true by lia. rewrite <- Hp. f_equal. lia.
    + rewrite list_lookup_insert_ne by done.
      case_bool_decide; [by rewrite bool_decide_true by lia|].
      by rewrite bool_decide_false by lia.
  - destruct (IH (S a) outp) as (outp' & -> & Hlen & Hget); [done..|lia|].
    exists outp'. split_and!; [done..|]. intros x Hx. rewrite Hget by done.
    case_bool_decide; [by rewrite bool_decide_true by lia|].
    by rewrite bool_decide_false by lia.
Qed.

Lemma shiftLines_spec (inImg : QImage) dx dy n : ∀ a (out : list (list Z)),
  QImage_wf inImg →
  length out = height inImg → Forall (λ line, length line = width inImg) out →
  a + n ≤ height inImg →
  ∃ out', shiftLines inImg dx dy (seq a n) out = Some out'
    ∧ length out' = height inImg
    ∧ Forall (λ line, length line = width inImg) out'
    ∧ ∀ x y, x < width inImg → y < height inImg →
        out' !! y ≫= (.!! x)
        = if bool_decide ((Z.of_nat a ≤ Z.of_nat y - dy < Z.of_nat a + Z.of_nat n)
                          ∧ 0 ≤ Z.of_nat x - dx < Z.of_nat (width inImg))%Z
          then pixelAt inImg (Z.to_nat (Z.of_nat x - dx)) (Z.to_nat (Z.of_nat y - dy))
          else out !! y ≫= (.!! x).
Proof.
  induction n as [|n IH]; intros a out Hwf Hlen Hrows Hle.
  { exists out. split_and!; [done..|]. intros x y Hx Hy.
    rewrite bool_decide_false; [done | lia]. }
  cbn [seq shiftLines].
  destruct (Z.ltb_spec (Z.of_nat a + dy) 0) as [Hneg|Hpos].
  { destruct (IH (S a) out) as (out' & -> & Hlen' & Hrows' & Hget); [done..|lia|].
    exists out'. split_and!; [done..|]. intros x y Hx Hy. rewrite Hget by done.
    case_bool_decide; [by rewrite bool_decide_true by lia|].
    by rewrite bool_decide_false by lia. }
  destruct (Z.geb_spec (Z.of_nat a + dy) (Z.of_nat (height inImg))) as [Hbrk|Hnbrk].
  { exists out. split_and!; [done..|]. intros x y Hx Hy.
    rewrite bool_decide_false; [done | lia]. }
  destruct Hwf as [HinLen HinRows].
  destruct (lookup_lt_is_Some_2 (scanLine inImg) a) as [inp Hinp]; [lia|].
  rewrite Hinp. cbn [mbind option_bind].
  destruct (lookup_lt_is_Some_2 out (Z.to_nat (Z.of_nat a + dy))) as [outp Houtp]; [lia|].
  rewrite Houtp. cbn [mbind option_bind].
  assert (length inp = width inImg) as Hinpl by (by eapply Forall_lookup_1 in HinRows).
  assert (length outp = width inImg) as Houtpl by (by eapply Forall_lookup_1 in Hrows).
  destruct (shiftPixels_spec (width inImg) inp dx (width inImg) 0 outp)
    as (outp' & -> & Hlen1 & Hget1); [done..|lia|].
  cbn [mbind option_bind].
  destruct (IH (S a) (<[Z.to_nat (Z.of_nat a + dy) := outp']> out))
    as (out' & -> & Hlen' & Hrows' & Hget);
    [done | by rewrite length_insert | by apply Forall_insert | lia |].
  exists out'. split_and!; [done..|]. intros x y Hx Hy. rewrite Hget by done.
  destruct (decide (y = Z.to_nat (Z.of_nat a + dy))) as [->|Hne].
  - rewrite bool_decide_false by lia. rewrite list_lookup_insert_eq by lia. cbn.
    rewrite Hget1 by done. rewrite Houtp. cbn.
    case_bool_decide as Hc.
    + rewrite bool_decide_true by lia. unfold pixelAt.
      replace (Z.to_nat (Z.of_nat (Z.to_nat (Z.of_nat a + dy)) - dy)) with a by lia.
      by rewrite Hinp.
    + by rewrite bool_decide_false by lia.
  - rewrite list_lookup_insert_ne by done.
    case_bool_decide; [by rewrite bool_decide_true by lia|].
    by rewrite bool_decide_false by lia.
Qed.

Lemma filled_wf w h p : QImage_wf (filled w h p).
Proof.
  split; cbn; [by rewrite length_replicate|].
  apply Forall_replicate. by rewrite length_replicate.
Qed.

Lemma filled_pixel w h p x y : x < w → y < h → pixelAt (filled w h p) x y = Some p.
Proof.
  intros Hx Hy. unfold pixelAt, filled. cbn.
  rewrite lookup_replicate_2 by done. cbn. by rewrite lookup_replicate_2.
Qed.

(** What [shiftQImage] computes on a well formed image. *)
Lemma shiftQImage_spec (inImg : QImage) dx dy :
  QImage_wf inImg →
  ∃ out, shiftQImage inImg dx dy = Some out
    ∧ QImage_wf out ∧ width out = width inImg ∧ height out = height inImg
    ∧ ∀ x y, x < width inImg → y < height inImg →
        pixelAt out x y
        = if bool_decide ((0 ≤ Z.of_nat x - dx < Z.of_nat (width inImg))
                          ∧ 0 ≤ Z.of_nat y - dy < Z.of_nat (height inImg))%Z
          then pixelAt inImg (Z.to_nat (Z.of_nat x - dx)) (Z.to_nat (Z.of_nat y - dy))
          else Some (qRgba 0 0 0 0).
Proof.
  intros Hwf. unfold shiftQImage.
  destruct (filled_wf (width inImg) (height inImg) (qRgba 0 0 0 0)) as [Hl Hr].
  destruct (shiftLines_spec inImg dx dy (height inImg) 0
              (scanLine (filled (width inImg) (height inImg) (qRgba 0 0 0 0))))
    as (lines & -> & Hlen & Hrows & Hget); [done..|lia|].
  cbn [mbind option_bind]. eexists. split; [done|]. split_and!; [by split|done..|].
  intros x y Hx Hy. unfold pixelAt at 1. cbn [scanLine]. rewrite Hget by done.
  pose proof (filled_pixel (width inImg) (height inImg) (qRgba 0 0 0 0) x y Hx Hy) as Hf.
  unfold pixelAt in Hf. rewrite Hf.
  case_bool_decide; [by rewrite bool_decide_true by lia|].
  by rewrite bool_decide_false by lia.
Qed.

Lemma QImage_ext (a b : QImage) :
  QImage_wf a → QImage_wf b → width a = width b → height a = height b →
  (∀ x y, x < width a → y < height a → pixelAt a x y = pixelAt b x y) → a = b.
Proof.
  destruct a as [wa ha la], b as [wb hb lb]. unfold QImage_wf, pixelAt. cbn.
  intros [Hla Hra] [Hlb Hrb] -> -> Hpix. f_equal.
  apply (list_eq_same_length _ _ hb); [done..|]. intros y r1 r2 Hy H1 H2.
  assert (length r1 = wb) as Hn1 by (by eapply Forall_lookup_1 in Hra).
  assert (length r2 = wb) as Hn2 by (by eapply Forall_lookup_1 in Hrb).
  apply (list_eq_same_length _ _ wb); [done..|]. intros x p1 p2 Hx Hp1 Hp2.
  specialize (Hpix x y Hx Hy). rewrite H1, H2 in Hpix. cbn in Hpix. congruence.
Qed.

(** X7. On a well formed image [shiftQImage] returns an image of the same
    size in which the pixel at [(x, y)] is the input pixel at
    [(x - dx, y - dy)] when that position lies inside the image, and
    transparent black otherwise. *)
Theorem shiftQImage_moves_pixels (inImg : QImage) dx dy :
  QImage_wf inImg →
  ∃ out, shiftQImage inImg dx dy = Some out
    ∧ QImage_wf out ∧ width out = width inImg ∧ height out = height inImg
    ∧ ∀ x y, x < width inImg → y < height inImg →
        pixelAt out x y
        = if bool_decide ((0 ≤ Z.of_nat x - dx < Z.of_nat (width inImg))
                          ∧ 0 ≤ Z.of_nat y - dy < Z.of_nat (height inImg))%Z
          then pixelAt inImg (Z.to_nat (Z.of_nat x - dx)) (Z.to_nat (Z.of_nat y - dy))
          else Some 0%Z.
Proof. apply shiftQImage_spec. Qed.

(** X8. Shifting a well formed image by (0, 0) gives the image back. *)
Theorem shiftQImage_zero (inImg : QImage) :
  QImage_wf inImg → shiftQImage inImg 0 0 = Some inImg.
Proof.
  intros Hwf. destruct (shiftQImage_spec inImg 0 0 Hwf) as (out & -> & Hwfo & Hw & Hh & Hpix).
  f_equal. apply QImage_ext; [done..|]. intros x y Hx Hy.
  rewrite Hpix by lia. rewrite bool_decide_true by lia.
  f_equal; lia.
Qed.

(** X9. Shifting by [(dx, dy)] and then back by [(-dx, -dy)] restores the
    pixels that stayed inside the image on the way, and leaves transparent
    black where the first shift pushed the pixel out. *)
Theorem shiftQImage_there_and_back (inImg : QImage) dx dy :
  QImage_wf inImg →
  ∃ out back, shiftQImage inImg dx dy = Some out
    ∧ shiftQImage out (- dx) (- dy) = Some back
    ∧ ∀ x y, x < width inImg → y < height inImg →
        pixelAt back x y
        = if bool_decide ((0 ≤ Z.of_nat x + dx < Z.of_nat (width inImg))
                          ∧ 0 ≤ Z.of_nat y + dy < Z.of_nat (height inImg))%Z
          then pixelAt inImg x y else Some 0%Z.
Proof.
  intros Hwf. destruct (shiftQImage_spec inImg dx dy Hwf) as (out & Hout & Hwfo & Hw & Hh & Hpix).
  destruct (shiftQImage_spec out (- dx) (- dy) Hwfo) as (back & Hback & _ & _ & _ & Hpix2).
  exists out, back. split_and!; [done..|]. intros x y Hx Hy.
  rewrite Hpix2 by lia. rewrite Hw, Hh.
  case_bool_decide as Hc.
  - rewrite bool_decide_true by lia. rewrite Hpix by lia.
    rewrite bool_decide_true by lia. f_equal; lia.
  - by rewrite bool_decide_false by lia.
Qed.

End PreviewProofs.

(** * Properties of the operator registry *)

Section TonemapProofs.
Import Tonemap.
Context {TMOperator : Type} `{!TMOperatorEnum TMOperator}.

(** X21. [getTonemapOperator] answers for exactly the eleven keys of the
    registry, and the operator it creates for a key reports that key as
    its type; for any other value it throws ["Invalid TMOperator"]. *)
Theorem getTonemapOperator_type (tmo : TMOperator) :
  (∀ op, getTonemapOperator tmo = inr op → getType op = tmo)
  ∧ (tmo ∈ (registry_list).*1 → ∃ op, getTonemapOperator tmo = inr op)
  ∧ (tmo ∉ (registry_list).*1 → getTonemapOperator tmo = inl "Invalid TMOperator"%string).
Proof.
  unfold getTonemapOperator, registry_find, registry_list.
  cbn [find fmap list_fmap fst snd].
  repeat (case_bool_decide;
          [ cbn [fmap option_fmap option_map snd create];
            split_and!; [by intros op [= <-] | by eexists | ];
            intros Hnot; exfalso; apply Hnot; subst tmo;
            rewrite !elem_of_cons; tauto
          | ]).
  cbn [fmap option_fmap option_map]. split_and!; [done | | done].
  rewrite !elem_of_cons, elem_of_nil. intros Hin. destruct_or!; congruence.
Qed.

End TonemapProofs.

Section FattalProofs.
Import Tonemap.
Context `{FloatOps float}.

(** X22. The detail level of the Fattal operator lies between 0 and 3;
    it never rises when the ratio of the original width to the width of
    the frame grows, and it is 3 when the frame has no positive width. *)
Theorem fattal_detail_level_steps (origxsize xsize origxsize' xsize' : Z) :
  fle (f_of_int 2) (f_of_int 4) → fle (f_of_int 4) (f_of_int 8) →
  (0 < xsize)%Z → (0 < xsize')%Z →
  fle (fdiv (f_of_int origxsize) (f_of_int xsize))
      (fdiv (f_of_int origxsize') (f_of_int xsize')) →
  (0 ≤ fattal_detail_level origxsize' xsize'
     ≤ fattal_detail_level origxsize xsize ≤ 3)%Z
  ∧ ∀ o x, (x ≤ 0)%Z → fattal_detail_level o x = 3%Z.
Proof.
  intros H24 H48 Hx Hx' Hle. split.
  - unfold fattal_detail_level.
    destruct (Z.ltb_spec 0 xsize) as [_|?]; [|lia].
    destruct (Z.ltb_spec 0 xsize') as [_|?]; [|lia]. cbv zeta.
    set (r := fdiv (f_of_int origxsize) (f_of_int xsize)) in *.
    set (r' := fdiv (f_of_int origxsize') (f_of_int xsize')) in *.
    assert (∀ c, strict fle r' c → strict fle r c) as Hmono.
    { intros c Hc. by apply (strict_trans_r (R:=fle) r r' c). }
    assert (∀ a c, strict fle r a → fle a c → strict fle r c) as Hup.
    { intros a c Ha Hac. by apply (strict_trans_l (R:=fle) r a c). }
    repeat case_bool_decide; try lia; exfalso; eauto.
  - intros o x Hx0. unfold fattal_detail_level.
    destruct (Z.ltb_spec 0 x) as [?|_]; [lia|done].
Qed.

End FattalProofs.

(** * Worked instances of the further properties *)

Section MoreInstances.
Import Demo Samples.

Lemma createChannel_then_getChannel_witness :
  "Y"%string ≠ "ALPHA"%string
  ∧ PfsFrame.getChannel "Y" (PfsFrame.createChannel "ALPHA" xyzFrame).1
    = PfsFrame.getChannel "Y" xyzFrame.
Proof.
  assert ("Y"%string ≠ "ALPHA"%string) as Hne by done.
  split; [exact Hne|].
  exact (proj2 (proj2 (createChannel_then_getChannel "ALPHA" "Y" xyzFrame)) Hne).
Defined.

Lemma createChannel_no_duplicate_witness :
  "X"%string ∈ PfsFrame.channelNames xyzFrame
  ∧ (PfsFrame.createChannel "X" xyzFrame).1 = xyzFrame.
Proof.
  assert ("X"%string ∈ PfsFrame.channelNames xyzFrame) as Hin.
  { vm_compute. apply list_elem_of_here. }
  split; [exact Hin|].
  exact (proj1 (proj2 (createChannel_no_duplicate "X" xyzFrame)) Hin).
Defined.

Lemma channel_names_stay_distinct_witness :
  NoDup (PfsFrame.channelNames xyzFrame)
  ∧ NoDup (PfsFrame.channelNames (PfsFrame.removeChannel "Y" xyzFrame)).
Proof.
  assert (NoDup (PfsFrame.channelNames xyzFrame)) as Hnd.
  { apply (bool_decide_unpack _). vm_compute. reflexivity. }
  split; [exact Hnd|].
  exact (proj2 (proj2 (proj2 (channel_names_stay_distinct "Y" xyzFrame) Hnd))).
Defined.

Lemma removeChannel_removes_witness :
  NoDup (PfsFrame.channelNames xyzFrame)
  ∧ PfsFrame.getChannel "Y" (PfsFrame.removeChannel "Y" xyzFrame) = None.
Proof.
  assert (NoDup (PfsFrame.channelNames xyzFrame)) as Hnd.
  { apply (bool_decide_unpack _). vm_compute. reflexivity. }
  split; [exact Hnd|].
  exact (proj1 (removeChannel_removes "Y" "X" xyzFrame) Hnd).
Defined.

Lemma wf_preview3x2 : Preview.QImage_wf preview3x2.
Proof. split; [done|]. repeat constructor. Qed.

Lemma shiftQImage_moves_pixels_witness :
  Preview.QImage_wf preview3x2
  ∧ ∃ out, Preview.shiftQImage preview3x2 1 (-1) = Some out
      ∧ Preview.pixelAt out 1 0 = Some 21%Z ∧ Preview.pixelAt out 0 0 = Some 0%Z.
Proof.
  split; [exact wf_preview3x2|].
  destruct (shiftQImage_moves_pixels preview3x2 1 (-1) wf_preview3x2)
    as (out & Hrun & _ & _ & _ & Hpix).
  exists out. split; [exact Hrun|]. split.
  - rewrite (Hpix 1 0) by (cbn; lia). reflexivity.
  - rewrite (Hpix 0 0) by (cbn; lia). reflexivity.
Defined.

Lemma shiftQImage_zero_witness :
  Preview.QImage_wf preview3x2 ∧ Preview.shiftQImage preview3x2 0 0 = Some preview3x2.
Proof.
  split; [exact wf_preview3x2|]. exact (shiftQImage_zero preview3x2 wf_preview3x2).
Defined.

Lemma shiftQImage_there_and_back_witness :
  Preview.QImage_wf preview3x2
  ∧ ∃ out back, Preview.shiftQImage preview3x2 1 0 = Some out
      ∧ Preview.shiftQImage out (-1) 0 = Some back
      ∧ Preview.pixelAt back 0 0 = Some 11%Z ∧ Preview.pixelAt back 2 0 = Some 0%Z.
Proof.
  split; [exact wf_preview3x2|].
  destruct (shiftQImage_there_and_back preview3x2 1 0 wf_preview3x2)
    as (out & back & Hout & Hback & Hpix).
  exists out, back. split; [exact Hout|]. split; [exact Hback|]. split.
  - rewrite (Hpix 0 0) by (cbn; lia). reflexivity.
  - rewrite (Hpix 2 0) by (cbn; lia). reflexivity.
Defined.

Lemma wf_array4x3 : PfsArray2D.Array2D_wf array4x3.
Proof. reflexivity. Qed.

Lemma wf_array2x2 : PfsArray2D.Array2D_wf array2x2.
Proof. reflexivity. Qed.

Lemma copyArray_copies_rectangle_witness :
  PfsArray2D.Array2D_wf array4x3 ∧ PfsArray2D.Array2D_wf array2x2
  ∧ ∃ to', PfsArray2D.copyArray array4x3 array2x2 1 1 3 3 = Some to'
      ∧ PfsArray2D.element to' 0 0 = Some 11%Z ∧ PfsArray2D.element to' 1 1 = Some 22%Z.
Proof.
  split; [exact wf_array4x3|]. split; [exact wf_array2x2|].
  destruct (copyArray_copies_rectangle array4x3 array2x2 1 1 3 3 wf_array4x3 wf_array2x2)
    as (to' & Hrun & _ & _ & _ & Hel); [cbn; lia..|].
  exists to'. split; [exact Hrun|]. split.
  - rewrite (Hel 0 0) by (cbn; lia). reflexivity.
  - rewrite (Hel 1 1) by (cbn; lia). reflexivity.
Defined.

Lemma copyArray_whole_witness :
  PfsArray2D.Array2D_wf array2x2 ∧ PfsArray2D.Array2D_wf array2x2Other
  ∧ PfsArray2D.copyArray array2x2 array2x2Other 0 0 2 2 = Some array2x2.
Proof.
  split; [exact wf_array2x2|]. split; [reflexivity|].
  apply (copyArray_whole array2x2 array2x2Other 2 2 wf_array2x2);
    [reflexivity | reflexivity | reflexivity | cbn; lia | cbn; lia].
Defined.

Lemma copyArray_wraps_past_right_edge_witness :
  PfsArray2D.Array2D_wf array4x3 ∧ PfsArray2D.Array2D_wf array2x2
  ∧ ∃ to', PfsArray2D.copyArray array4x3 array2x2 3 0 4 3 = Some to'
      ∧ PfsArray2D.element to' 1 0 = Some 10%Z.
Proof.
  split; [exact wf_array4x3|]. split; [exact wf_array2x2|].
  destruct (copyArray_wraps_past_right_edge array4x3 array2x2 3 0 4 3 1 0
              wf_array4x3 wf_array2x2) as (to' & Hrun & Hel); [cbn; lia..|].
  exists to'. split; [exact Hrun|]. rewrite Hel. reflexivity.
Defined.

Lemma removeFile_removes_one_witness :
  ∃ s', removeFile 1 threeExposures = Some s'
    ∧ availableInputFiles s' + 1 = availableInputFiles threeExposures
    ∧ m_data s' !! 1 = m_data threeExposures !! 2.
Proof.
  assert (removeFile 1 threeExposures
          = Some (default emptyManager (removeFile 1 threeExposures))) as Hrun.
  { vm_compute. reflexivity. }
  exists (default emptyManager (removeFile 1 threeExposures)).
  destruct (proj2 (removeFile_removes_one 1 threeExposures) _ Hrun)
    as (Hlen & _ & Hup & _).
  split; [exact Hrun|]. split; [exact Hlen|]. apply (Hup 1). cbn. lia.
Defined.

Lemma finished_batch_extends_store_witness :
  ∃ s' log, loadFilesDone false pendingLate = Some (s', log)
    ∧ finishedLoadingFiles ∈ log
    ∧ m_data s' = merged pendingLate ∧ m_tmpdata s' = [].
Proof.
  assert (loadFilesDone false pendingLate
          = Some ((default (emptyManager, []) (loadFilesDone false pendingLate)).1,
                  [finishedLoadingFiles])) as Hrun.
  { vm_compute. reflexivity. }
  assert (finishedLoadingFiles ∈ [finishedLoadingFiles]) as Hin by apply list_elem_of_here.
  eexists _, _. split; [exact Hrun|]. split; [exact Hin|].
  destruct (finished_batch_extends_store _ _ _ Hrun Hin) as (Hd & Ht & _).
  split; [exact Hd | exact Ht].
Defined.

Lemma failed_curve_read_does_not_stop_the_batch_witness :
  ∃ s' final,
    loadFilesDone false pendingWithCurve
    = Some (s', [errorWhileLoading "cannot open"; final])
    ∧ m_isLoadResponseCurve s' = true ∧ m_tmpdata s' = [].
Proof.
  assert (m_isLoadResponseCurve pendingWithCurve = true) as Hload by reflexivity.
  assert (m_tmpdata pendingWithCurve
          = darkItem :: [LoadFile (decode 1) (newItem blank "mid.tif"%string)]) as Htmp
    by reflexivity.
  assert (response_readFromFile (m_responseCurveInputFilename pendingWithCurve)
            (response_setBPS (getBitDepth (payload darkItem)) (m_response pendingWithCurve))
          = ([], Some "cannot open"%string)) as Hread by reflexivity.
  assert (merged pendingWithCurve ≠ []) as Hne by (vm_compute; discriminate).
  destruct (failed_curve_read_does_not_stop_the_batch pendingWithCurve _ _ _ _
              Hload Htmp Hread Hne) as (s' & final & Hrun & _ & Ht & Hl & _).
  exists s', final. split; [exact Hrun|]. split; [exact Hl | exact Ht].
Defined.

Lemma computePatches_then_getAgData_witness :
  grid_wf agGridSize (m_patches threeExposures)
  ∧ ∃ s' r, computePatches half noOffsets threeExposures = Some (s', r)
      ∧ getAgData s' = (pr_patches r, pr_index r).
Proof.
  assert (grid_wf agGridSize (m_patches threeExposures)) as Hwf by apply wf_2x2.
  assert (computePatches half noOffsets threeExposures
          = Some (detectedAt half)) as Hrun.
  { vm_compute. reflexivity. }
  split; [exact Hwf|]. exists (detectedAt half).1, (detectedAt half).2.
  destruct (detectedAt half) as [s' r] eqn:Hd. cbn [fst snd].
  split; [exact Hrun|].
  exact (proj1 (computePatches_then_getAgData half noOffsets threeExposures s' r Hwf Hrun)).
Defined.

Lemma deghosting_progress_signals_witness :
  ∃ s' log,
    doAntiGhosting noPatches 1 false (canceledAt 2) threeExposures = Some (s', log, None)
    ∧ progressStarted ∈ log ∧ (progressFinished ∉ log).
Proof.
  assert (is_Some (lookupZ (m_data threeExposures) 1)) as Hgood.
  { vm_compute. eexists. reflexivity. }
  assert (false = true → is_Some (m_agMask threeExposures)) as Hmask by discriminate.
  destruct (deghosting_progress_signals noPatches 1 false (canceledAt 2) threeExposures
              Hgood Hmask) as (s' & log & result & Hrun & Hstart & Hfin & _).
  assert (result = None) as ->.
  { assert (snd <$> doAntiGhosting noPatches 1 false (canceledAt 2) threeExposures
            = Some None) as Hres by (vm_compute; reflexivity).
    rewrite Hrun in Hres. cbn in Hres. congruence. }
  exists s', log. split; [exact Hrun|]. split; [exact Hstart|].
  intros Hin. apply Hfin in Hin. destruct Hin as [? Hin]. discriminate Hin.
Defined.

Lemma first_checkpoint_cancel_keeps_store_witness :
  ∃ s' log,
    doAntiGhosting noPatches 1 false (canceledAt 0) threeExposures = Some (s', log, None)
    ∧ availableInputFiles s' = 3.
Proof.
  assert (is_Some (lookupZ (m_data threeExposures) 1)) as Hgood.
  { vm_compute. eexists. reflexivity. }
  assert (canceledAt 0 0 = true) as Hc by reflexivity.
  destruct (first_checkpoint_cancel_keeps_store noPatches 1 false (canceledAt 0)
              threeExposures Hgood Hc) as (s' & log & Hrun & _ & _ & Hn & _).
  exists s', log. split; [exact Hrun|]. rewrite Hn. reflexivity.
Defined.

Lemma applyShiftsToItems_shifts_each_item_witness :
  ∃ s', applyShiftsToItems markShifted [(0, 0); (2, -1); (0, 3); (5, 5)]%Z threeExposures
        = Some s'
    ∧ namesOf (m_data s') = ["dark.tif"; "mid.tif+shifted"; "bright.tif+shifted"]%string.
Proof.
  assert (availableInputFiles threeExposures
          ≤ length [(0, 0); (2, -1); (0, 3); (5, 5)]%Z) as Hle by (vm_compute; lia).
  destruct (proj2 (proj1 (applyShiftsToItems_shifts_each_item markShifted
              [(0, 0); (2, -1); (0, 3); (5, 5)]%Z threeExposures)) Hle) as [s' Hrun].
  exists s'. split; [exact Hrun|].
  assert (namesOf <$> (m_data <$>
            applyShiftsToItems markShifted [(0, 0); (2, -1); (0, 3); (5, 5)]%Z threeExposures)
          = Some ["dark.tif"; "mid.tif+shifted"; "bright.tif+shifted"]%string) as Hnames
    by (vm_compute; reflexivity).
  rewrite Hrun in Hnames. cbn in Hnames. congruence.
Defined.

Lemma reachable_states_are_sound_witness :
  reachable threeExposures
  ∧ grid_wf agGridSize (m_patches threeExposures)
  ∧ ∀ it : HdrCreationItem Qc Arr, it ∈ m_data threeExposures → isValid (payload it) = true.
Proof.
  assert (reachable threeExposures) as Hreach.
  { apply (reach_loadFilesDone false
             (mapLoadFile decode
                (loadFiles blank ["dark.tif"; "mid.tif"; "bright.tif"]%string emptyManager))
             threeExposures [finishedLoadingFiles]).
    - apply reach_mapLoadFile, reach_loadFiles.
      change emptyManager with (HdrCreationManager_new () () () noPatches 0).
      apply reach_new. apply wf_2x2.
    - vm_compute. reflexivity. }
  split; [exact Hreach|].
  destruct (reachable_states_are_sound threeExposures Hreach) as (Hwf & Hvalid & _).
  split; [exact Hwf | exact Hvalid].
Defined.




Lemma getTonemapOperator_type_witness :
  Tonemap.getTonemapOperator (TMOperator := nat) 2 = inr Tonemap.TonemapOperatorFattal02
  ∧ Tonemap.getType (TMOperator := nat) Tonemap.TonemapOperatorFattal02 = 2
  ∧ Tonemap.getTonemapOperator (TMOperator := nat) 11 = inl "Invalid TMOperator"%string.
Proof.
  assert (Tonemap.getTonemapOperator (TMOperator := nat) 2
          = inr Tonemap.TonemapOperatorFattal02) as Hrun by reflexivity.
  assert (11 ∉ (Tonemap.registry_list (TMOperator := nat)).*1) as Hout.
  { apply (bool_decide_unpack _). vm_compute. reflexivity. }
  split; [exact Hrun|]. split.
  - exact (proj1 (getTonemapOperator_type (TMOperator := nat) 2) _ Hrun).
  - exact (proj2 (proj2 (getTonemapOperator_type (TMOperator := nat) 11)) Hout).
Defined.

Lemma fattal_detail_level_steps_witness :
  (0 ≤ Tonemap.fattal_detail_level (float := Qc) 4000 500
     ≤ Tonemap.fattal_detail_level (float := Qc) 4000 1000 ≤ 3)%Z.
Proof.
  assert (fle (f_of_int (float := Qc) 2) (f_of_int 4)) as H24 by (vm_compute; discriminate).
  assert (fle (f_of_int (float := Qc) 4) (f_of_int 8)) as H48 by (vm_compute; discriminate).
  assert (fle (fdiv (f_of_int (float := Qc) 4000) (f_of_int 1000))
              (fdiv (f_of_int 4000) (f_of_int 500))) as Hle by (vm_compute; discriminate).
  apply (fattal_detail_level_steps (float := Qc) 4000 1000 4000 500 H24 H48); [lia | lia |].
  exact Hle.
Defined.

End MoreInstances.
